(** * PDF report pipeline ([src/PDF.py]): extraction, table assembly, layout

    A shallow embedding of the functions of [src/PDF.py] and the properties
    the specification states about them.

    Conventions of the embedding.
    - A Python [str] is a list of Unicode code points ([N]); literals are
      written [py "..."] for ASCII text and as numbers otherwise.
    - An exception that leaves a function is a [Raise] result; a
      [try/except] of the source is a [match] on the result.
    - Collaborators outside the repository (ReportLab's paragraph parser and
      image reader, the document builder, the captioning and summarising
      model, PyMuPDF) are parameters of the functions that call them.
    - Python floats are exact rationals followed by a rounding [rnd]. *)

From Stdlib Require Import Ascii String.
From Stdlib Require DecimalNat DecimalString FinFun.
From Stdlib Require Import List Bool Arith NArith ZArith QArith Qround Qabs
  Qpower Lia Lqa.
Import ListNotations.

Close Scope Q_scope.
Set Implicit Arguments.
Set Warnings "-register-all".

(** ** Python strings *)

Module PyStr.

Definition char := N.
Definition str := list char.

(** An ASCII literal as a Python string. *)
Definition py (s : String.string) : str :=
  List.map N_of_ascii (String.list_ascii_of_string s).

Definition chr (s : String.string) : char :=
  match s with
  | String.String a _ => N_of_ascii a
  | String.EmptyString => 0%N
  end.

Arguments py s%_string.
Arguments chr s%_string.

Definition str_eqb (a b : str) : bool :=
  if list_eq_dec N.eq_dec a b then true else false.

(** [str.isspace] on one character (CPython's [Py_UNICODE_ISSPACE]); it is
    also what [str.strip()] removes and what [\s] matches. *)
Definition is_space (c : char) : bool :=
  ((9 <=? c) && (c <=? 13) || (28 <=? c) && (c <=? 32)
   || (c =? 133) || (c =? 160) || (c =? 5760)
   || (8192 <=? c) && (c <=? 8202)
   || (c =? 8232) || (c =? 8233) || (c =? 8239) || (c =? 8287)
   || (c =? 12288))%N.

Fixpoint dropwhile (p : char -> bool) (s : str) : str :=
  match s with
  | [] => []
  | c :: s' => if p c then dropwhile p s' else s
  end.

Definition lstrip_by (p : char -> bool) (s : str) : str := dropwhile p s.
Definition rstrip_by (p : char -> bool) (s : str) : str :=
  rev (dropwhile p (rev s)).
Definition strip_by (p : char -> bool) (s : str) : str :=
  rstrip_by p (lstrip_by p s).

(** [s.strip()] *)
Definition strip (s : str) : str := strip_by is_space s.

(** [s.strip(c)] for a one-character argument *)
Definition strip_char (c : char) (s : str) : str := strip_by (N.eqb c) s.

(** [s.split(sep)] for a one-character separator: never the empty list. *)
Fixpoint split (sep : char) (s : str) : list str :=
  match s with
  | [] => [[]]
  | c :: s' =>
      if (c =? sep)%N then [] :: split sep s'
      else match split sep s' with
           | piece :: pieces => (c :: piece) :: pieces
           | [] => [[c]]
           end
  end.

(** [s.startswith(p)] *)
Fixpoint startswith (p s : str) : bool :=
  match p, s with
  | [], _ => true
  | _ :: _, [] => false
  | a :: p', b :: s' => (a =? b)%N && startswith p' s'
  end.

(** [s.endswith(p)] *)
Definition endswith (p s : str) : bool := startswith (rev p) (rev s).

(** [s.replace(old, new)]: the occurrences of [old] from left to right,
    without overlap. [skip] counts the characters of an occurrence that
    are still to be passed over. *)
Fixpoint replace_from (old new : str) (skip : nat) (s : str) : str :=
  match s with
  | [] => []
  | c :: s' =>
      match skip with
      | S k => replace_from old new k s'
      | O =>
          if startswith old s
          then new ++ replace_from old new (length old - 1) s'
          else c :: replace_from old new 0 s'
      end
  end.

Definition replace (old new s : str) : str :=
  match old with
  | [] => flat_map (fun c => new ++ [c]) s ++ new
  | _ :: _ => replace_from old new 0 s
  end.

(** [sep.join(parts)] *)
Fixpoint join (sep : str) (parts : list str) : str :=
  match parts with
  | [] => []
  | [p] => p
  | p :: rest => p ++ sep ++ join sep rest
  end.

(** [str(n)] for a natural number *)
Definition of_nat (n : nat) : str :=
  py (DecimalString.NilEmpty.string_of_uint (Nat.to_uint n)).

(** *** Regular expressions

    The patterns of the source are sequences of these items. Matching is
    by backtracking, as in Python's [re]: each item tries its choices in
    order of preference and hands the rest of the string to the items that
    follow, [k]; the first choice under which they succeed is the match.
    The result is the captured groups and the text after the match. *)
Inductive re_item :=
  | Lit (c : char)                  (* a literal character *)
  | Class (p : char -> bool)        (* one character of a class *)
  | Star (p : char -> bool)         (* [p*], greedy: longest first *)
  | Opt (c : char)                  (* [c?], greedy: taken first *)
  | LazyGroup (p : char -> bool).   (* [(p*?)], lazy: shortest first *)

Definition re_result := option (list str * str).

Fixpoint star_run (k : str -> re_result) (p : char -> bool) (s : str)
  : re_result :=
  match s with
  | c :: s' =>
      if p c then
        match star_run k p s' with
        | Some r => Some r
        | None => k s
        end
      else k s
  | [] => k []
  end.

Fixpoint lazy_run (k : str -> re_result) (p : char -> bool) (acc s : str)
  : re_result :=
  match k s with
  | Some (groups, rest) => Some (rev acc :: groups, rest)
  | None =>
      match s with
      | c :: s' => if p c then lazy_run k p (c :: acc) s' else None
      | [] => None
      end
  end.

(** The match of a pattern anchored at the head of [s]: [re.match]. *)
Fixpoint re_match (pattern : list re_item) : str -> re_result :=
  match pattern with
  | [] => fun s => Some ([], s)
  | Lit c :: pattern' =>
      fun s =>
        match s with
        | d :: s' => if (c =? d)%N then re_match pattern' s' else None
        | [] => None
        end
  | Class p :: pattern' =>
      fun s =>
        match s with
        | d :: s' => if p d then re_match pattern' s' else None
        | [] => None
        end
  | Star p :: pattern' => star_run (re_match pattern') p
  | Opt c :: pattern' =>
      fun s =>
        match s with
        | d :: s' =>
            if (c =? d)%N then
              match re_match pattern' s' with
              | Some r => Some r
              | None => re_match pattern' s
              end
            else re_match pattern' s
        | [] => re_match pattern' []
        end
  | LazyGroup p :: pattern' => lazy_run (re_match pattern') p []
  end.

(** [re.sub(pattern, repl, s)] for a pattern that never matches the empty
    string: the matches from left to right, each replaced by [repl] of its
    groups. [skip] counts the characters of a match still to be passed
    over. *)
Fixpoint re_sub (pattern : list re_item) (repl : list str -> str)
         (skip : nat) (s : str) : str :=
  match s with
  | [] => []
  | c :: s' =>
      match skip with
      | S k => re_sub pattern repl k s'
      | O =>
          match re_match pattern s with
          | Some (groups, rest) =>
              repl groups
              ++ re_sub pattern repl (length s - length rest - 1) s'
          | None => c :: re_sub pattern repl 0 s'
          end
      end
  end.

(** The literal text [t] as a pattern. *)
Definition lits (t : str) : list re_item := List.map Lit t.

(** [.] of a regular expression without DOTALL: anything but a newline. *)
Definition re_dot (c : char) : bool := negb (c =? 10)%N.

End PyStr.

Export PyStr.

(** ** Exceptions *)

Inductive exn :=
  | ParagraphMarkupError (text : str)   (* ReportLab's Paragraph rejects its markup *)
  | DocumentOpenError                   (* fitz.open fails *)
  | SummaryError.                       (* llm.invoke fails in generate_summary *)

Inductive result (A : Type) :=
  | OK (a : A)
  | Raise (e : exn).

Arguments OK {A} a.
Arguments Raise {A} e.

Definition bind {A B} (r : result A) (k : A -> result B) : result B :=
  match r with
  | OK a => k a
  | Raise e => Raise e
  end.

Notation "x <- r ;; k" := (bind r (fun x => k))
  (at level 61, r at next level, right associativity).

Fixpoint mapM {A B} (f : A -> result B) (l : list A) : result (list B) :=
  match l with
  | [] => OK []
  | a :: l' => b <- f a ;; bs <- mapM f l' ;; OK (b :: bs)
  end.

(** ** Layout units (ReportLab flowables) *)

Inductive style :=
  | MainTitle | WikiH1 | WikiH2 | WikiH3 | WikiBody | WikiBullet | Caption
  | TableCellC | TableCellL.

Inductive rule := TitleRule | H1Rule.

(** [Spacer(1, h*cm)] is [Spacer h]: heights are kept in centimetres.
    A [Table] keeps its cell paragraphs, its column widths and [repeatRows];
    its [TableStyle] is the same for every table and is left out. *)
Inductive flowable :=
  | Paragraph (text : str) (s : style)
  | Spacer (height_cm : Q)
  | Drawing (r : rule)
  | PageBreak
  | KeepTogether (content : list flowable)
  | PDFImage (path : str) (drawWidth drawHeight : Q)
  | Table (table_data : list (list flowable)) (colWidths : list Q)
          (repeatRows : nat).

Definition is_KeepTogether (f : flowable) : bool :=
  match f with KeepTogether _ => true | _ => false end.

Definition paragraph_text (f : flowable) : str :=
  match f with Paragraph text _ => text | _ => [] end.

(** The cell texts of a table, bare or wrapped in [KeepTogether([t])]. *)
Definition table_rows (f : flowable) : list (list str) :=
  match f with
  | Table d _ _ => List.map (List.map paragraph_text) d
  | KeepTogether [Table d _ _] => List.map (List.map paragraph_text) d
  | _ => []
  end.

Definition table_colWidths (f : flowable) : list Q :=
  match f with
  | Table _ w _ => w
  | KeepTogether [Table _ w _] => w
  | _ => []
  end.

(** ** Inline markup: [format_inline_bold] *)

(** A lower-case ASCII letter or its capital: what the letter matches under
    IGNORECASE (no other character folds to [b] or to [r]). *)
Definition ieq (c : char) (lower : String.string) : bool :=
  ((c =? chr lower) || (c + 32 =? chr lower))%N.
Arguments ieq c lower%_string.

(** [<br\s*/?>] under IGNORECASE *)
Definition br_pattern : list re_item :=
  [Lit (chr "<"); Class (fun c => ieq c "b"); Class (fun c => ieq c "r");
   Star is_space; Opt (chr "/"); Lit (chr ">")].

(** [\*\*(.*?)\*\*] *)
Definition bold_pattern : list re_item :=
  lits (py "**") ++ [LazyGroup re_dot] ++ lits (py "**").

(** [<b>\1</b>] *)
Definition bold_repl (groups : list str) : str :=
  py "<b>" ++ nth 0 groups [] ++ py "</b>".

Definition format_inline_bold (text : str) : str :=
  match text with
  | [] => []
  | _ :: _ =>
      let text := re_sub br_pattern (fun _ => py "<br/>") 0 text in
      let text := re_sub bold_pattern bold_repl 0 text in
      text
  end.

(** ** Tables: [parse_markdown_table] and [create_paragraph_table] *)

Definition parse_row (line : str) : list str :=
  List.map strip (split (chr "|") (strip_char (chr "|") line)).

Definition parse_markdown_table (markdown_lines : list str) : list (list str) :=
  filter (fun row => 0 <? length row) (List.map parse_row markdown_lines).

(** [set("".join(row)).issubset({'-', ':', ' '})] *)
Definition separator_chars (s : str) : bool :=
  forallb (fun c => (c =? chr "-") || (c =? chr ":") || (c =? chr " "))%N s.

Definition is_separator_row (row : list str) : bool :=
  (0 <? length row) && separator_chars (concat row).

Definition clean_rows (parsed_data : list (list str)) : list (list str) :=
  filter (fun row => negb (is_separator_row row)) parsed_data.

Definition max_cols_of (clean_data : list (list str)) : nat :=
  list_max (List.map (@length str) clean_data).

Definition normalize_rows (clean_data : list (list str)) : list (list str) :=
  let max_cols := max_cols_of clean_data in
  List.map (fun row => row ++ repeat [] (max_cols - length row)) clean_data.

(** The rows of the table of a buffer, lines 244 to 252. *)
Definition clean_data_of (raw_data_lines : list str) : list (list str) :=
  clean_rows (parse_markdown_table raw_data_lines).

Definition normalized_data_of (raw_data_lines : list str) : list (list str) :=
  normalize_rows (clean_data_of raw_data_lines).

Section Layout.

(** Float arithmetic: the exact result, rounded. *)
Variable rnd : Q -> Q.
Definition fmul (a b : Q) : Q := rnd (a * b).
Definition fdiv (a b : Q) : Q := rnd (a / b).

(** ReportLab's paragraph parser: the texts [Paragraph(text, style)] accepts. *)
Variable markup_ok : str -> bool.

Definition mkParagraph (text : str) (s : style) : result flowable :=
  if markup_ok text then OK (Paragraph text s)
  else Raise (ParagraphMarkupError text).

(** [A4[0] - 2 * margin] and [10 * cm], in points. *)
Variable available_width : Q.
Variable max_height : Q.

(** The cells of row [i], lines 261 to 267. *)
Definition convert_row (i : nat) (row : list str) : result (list flowable) :=
  mapM (fun cell_text =>
          mkParagraph (format_inline_bold cell_text)
                      (if i =? 0 then TableCellC else TableCellL)) row.

Fixpoint convert_rows (i : nat) (rows : list (list str))
  : result (list (list flowable)) :=
  match rows with
  | [] => OK []
  | row :: rows' =>
      converted_row <- convert_row i row ;;
      table_data <- convert_rows (S i) rows' ;;
      OK (converted_row :: table_data)
  end.

Definition create_paragraph_table (raw_data_lines : list str)
  : result (option flowable) :=
  match raw_data_lines with
  | [] => OK None
  | _ :: _ =>
      let parsed_data := parse_markdown_table raw_data_lines in
      let clean_data := clean_rows parsed_data in
      match clean_data with
      | [] => OK None
      | _ :: _ =>
          let max_cols := max_cols_of clean_data in
          let normalized_data := normalize_rows clean_data in
          let col_width := fdiv available_width (inject_Z (Z.of_nat max_cols)) in
          let col_widths := repeat col_width max_cols in
          table_data <- convert_rows 0 normalized_data ;;
          let t := Table table_data col_widths 1 in
          OK (Some (if length clean_data <? 30 then KeepTogether [t] else t))
      end
  end.

(** *** Image references *)

Record image_record := { path : str; caption : str; label : str }.

(** A [dict] keyed by label, in insertion order. *)
Definition image_dict := list (str * image_record).

Fixpoint dict_get (k : str) (d : image_dict) : option image_record :=
  match d with
  | [] => None
  | (k', v) :: d' => if str_eqb k k' then Some v else dict_get k d'
  end.

Fixpoint dict_set (k : str) (v : image_record) (d : image_dict) : image_dict :=
  match d with
  | [] => [(k, v)]
  | (k', v') :: d' =>
      if str_eqb k k' then (k, v) :: d' else (k', v') :: dict_set k v d'
  end.

(** [\[\[IMG:\s*(.*?)\]\]] *)
Definition img_pattern : list re_item :=
  lits (py "[[IMG:") ++ [Star is_space; LazyGroup re_dot] ++ lits (py "]]").

(** [re.match(r'\[\[IMG:\s*(.*?)\]\]', line)]: group 1 of the match, which
    is anchored at the start of the line and not at its end. *)
Definition img_match (line : str) : option str :=
  match re_match img_pattern line with
  | Some (groups, _) => Some (nth 0 groups [])
  | None => None
  end.

(** [img_match.group(1).strip().replace(" ", "")] *)
Definition label_key_of (group1 : str) : str :=
  replace (py " ") [] (strip group1).

(** ReportLab's image reader: [imageWidth] and [imageHeight] of the file at
    a path, or nothing when [PDFImage(path)] raises. *)
Variable load_image : str -> option (Z * Z).

Definition Qgtb (a b : Q) : bool := negb (Qle_bool a b).

(** Lines 347 to 349. *)
Definition bound_width (aspect : Q) (wh : Q * Q) : Q * Q :=
  let (img_w, img_h) := wh in
  if Qgtb img_w available_width
  then (available_width, fmul available_width aspect)
  else wh.

(** Lines 350 to 352; nothing on a division by zero. *)
Definition bound_height (aspect : Q) (wh : Q * Q) : option (Q * Q) :=
  let (img_w, img_h) := wh in
  if Qgtb img_h max_height then
    if Qeq_bool aspect 0 then None
    else Some (fdiv max_height aspect, max_height)
  else Some wh.

(** Lines 343 to 352: the drawn width and height of an image. The pixel
    sizes are small integers, which [float] converts exactly. *)
Definition scale_image (imageWidth imageHeight : Z) : option (Q * Q) :=
  if (imageWidth =? 0)%Z then None
  else
    let aspect := fdiv (inject_Z imageHeight) (inject_Z imageWidth) in
    bound_height aspect
      (bound_width aspect (inject_Z imageWidth, inject_Z imageHeight)).

(** The body of the [try] of lines 340 to 365: the units appended to the
    story, none when an exception is caught. *)
Definition image_unit (info : image_record) : list flowable :=
  match load_image (path info) with
  | None => []
  | Some (imageWidth, imageHeight) =>
      match scale_image imageWidth imageHeight with
      | None => []
      | Some (img_w, img_h) =>
          match mkParagraph ([9650; 32]%N ++ caption info) Caption with
          | OK p =>
              [KeepTogether [Spacer (2 # 10); PDFImage (path info) img_w img_h;
                             Spacer (1 # 10); p; Spacer (5 # 10)]]
          | Raise _ => []
          end
      end
  end.

(** *** The line loop of [save_to_pdf] *)

Record loop_state := {
  story : list flowable;
  table_buffer : list str;
  in_table : bool
}.

Definition h1_group (p : flowable) : flowable :=
  KeepTogether [Spacer (5 # 10); p; Drawing H1Rule; Spacer (3 # 10)].

(** Lines 369 to 389. *)
Definition text_block (story : list flowable) (line : str)
  : result (list flowable) :=
  if startswith (py "# ") line then
    let story := if 5 <? length story then story ++ [PageBreak] else story in
    let text := strip (replace (py "# ") [] line) in
    p <- mkParagraph text WikiH1 ;;
    OK (story ++ [h1_group p])
  else if startswith (py "## ") line then
    p <- mkParagraph (strip (replace (py "## ") [] line)) WikiH2 ;;
    OK (story ++ [p])
  else if startswith (py "### ") line then
    p <- mkParagraph (strip (replace (py "### ") [] line)) WikiH3 ;;
    OK (story ++ [p])
  else if startswith (py "#### ") line then
    p <- mkParagraph (py "<b>" ++ strip (replace (py "#### ") [] line)
                               ++ py "</b>") WikiBody ;;
    OK (story ++ [p])
  else if startswith (py "- ") line || startswith (py "* ") line then
    p <- mkParagraph ([8226; 32]%N ++ format_inline_bold (skipn 2 line))
                     WikiBullet ;;
    OK (story ++ [p])
  else
    p <- mkParagraph (format_inline_bold line) WikiBody ;;
    OK (story ++ [p]).

(** Lines 323 to 330: a pending table is finalized by the first line that
    does not start with a pipe. No [try] surrounds the call. *)
Definition flush_table (st : loop_state) : result loop_state :=
  if in_table st then
    t <- create_paragraph_table (table_buffer st) ;;
    OK {| story := story st ++
                   match t with
                   | Some t => [Spacer (2 # 10); t; Spacer (5 # 10)]
                   | None => []
                   end;
          table_buffer := [];
          in_table := false |}
  else OK st.

Definition with_story (st : loop_state) (s : list flowable) : loop_state :=
  {| story := s; table_buffer := table_buffer st; in_table := in_table st |}.

Section Lines.

Variable image_data_dict : image_dict.

(** One iteration of the loop of lines 314 to 389. *)
Definition process_line (st : loop_state) (raw : str) : result loop_state :=
  let line := strip raw in
  if startswith (py "|") line then
    OK {| story := story st;
          table_buffer := table_buffer st ++ [line];
          in_table := true |}
  else
    st <- flush_table st ;;
    match line with
    | [] => OK st
    | _ :: _ =>
        match img_match line with
        | Some group1 =>
            match dict_get (label_key_of group1) image_data_dict with
            | Some info => OK (with_story st (story st ++ image_unit info))
            | None => OK st
            end
        | None =>
            s <- text_block (story st) line ;;
            OK (with_story st s)
        end
    end.

Fixpoint process_lines (st : loop_state) (lines : list str)
  : result loop_state :=
  match lines with
  | [] => OK st
  | raw :: lines' => st' <- process_line st raw ;; process_lines st' lines'
  end.

(** Lines 391 to 393. *)
Definition finish_table (st : loop_state) : result (list flowable) :=
  match in_table st, table_buffer st with
  | true, _ :: _ =>
      t <- create_paragraph_table (table_buffer st) ;;
      OK (story st ++ match t with Some t => [t] | None => [] end)
  | _, _ => OK (story st)
  end.

End Lines.

(** [Path(original_filename).stem] *)
Variable path_stem : str -> str.

(** " 要約・解説 レポート" *)
Definition title_suffix : str :=
  [32; 35201; 32004; 12539; 35299; 35500; 32; 12524; 12509; 12540; 12488]%N.

(** Lines 301 to 308. *)
Definition title_block (original_filename : str) : result (list flowable) :=
  p <- mkParagraph (path_stem original_filename ++ title_suffix) MainTitle ;;
  OK [p; Drawing TitleRule; Spacer 1].

(** The story handed to [doc.build], lines 301 to 393. *)
Definition build_story (markdown_text : str) (image_data_dict : image_dict)
           (original_filename : str) : result (list flowable) :=
  story <- title_block original_filename ;;
  let lines := split 10%N markdown_text in
  st <- process_lines image_data_dict
          {| story := story; table_buffer := []; in_table := false |} lines ;;
  finish_table st.

(** [doc.build(story)]: whether serialization succeeds. *)
Variable build_ok : list flowable -> bool.

(** [save_to_pdf], the name of the output file apart: [True] or [False] as
    the build succeeds or fails (lines 395 to 403); an exception of the
    layout is not caught here. *)
Definition save_to_pdf (markdown_text : str) (image_data_dict : image_dict)
           (original_filename : str) : result bool :=
  story <- build_story markdown_text image_data_dict original_filename ;;
  OK (build_ok story).

End Layout.

(** ** Extraction: [extract_content_from_pdf] *)

Definition MAX_IMAGES : nat := 50.

(** [DIRS['temp_img']] *)
Definition temp_img : str := py "data/temp_images".

(** A page as PyMuPDF gives it: its text, and for each entry of
    [page.get_images] what [doc.extract_image] returns, the bytes and the
    extension, or nothing when it raises. *)
Record page := {
  page_text : str;
  page_images : list (option (list Byte.byte * str))
}.

Definition document := list page.

Record extract_state := {
  img_count : nat;
  image_data : image_dict;
  temp_files : list (str * list Byte.byte)   (* the files written, latest first *)
}.

(** The content of the scratch file at a path. *)
Fixpoint read_file (p : str) (files : list (str * list Byte.byte))
  : option (list Byte.byte) :=
  match files with
  | [] => None
  | (q, b) :: rest => if str_eqb p q then Some b else read_file p rest
  end.

Section Extraction.

(** The captioning call of lines 186 to 191: the answer for the image
    numbered [n], or nothing when [llm.invoke] raises. *)
Variable llm_caption : nat -> list Byte.byte -> option str.

(** [図] followed by the number. *)
Definition label_of (n : nat) : str := [22259%N] ++ of_nat n.

(** The body of the inner loop, lines 172 to 202. An exception anywhere in
    the [try] leaves the counter and the map as they were. Writing the
    scratch file is taken to succeed; paths are joined with [/]. *)
Definition extract_image (st : extract_state)
           (img : option (list Byte.byte * str)) : extract_state :=
  match img with
  | None => st
  | Some (image_bytes, ext) =>
      if length image_bytes <? 5000 then st
      else
        let img_filename :=
          py "img_" ++ of_nat (img_count st + 1) ++ py "." ++ ext in
        let img_path := temp_img ++ py "/" ++ img_filename in
        let files := (img_path, image_bytes) :: temp_files st in
        match llm_caption (img_count st + 1) image_bytes with
        | None =>
            {| img_count := img_count st; image_data := image_data st;
               temp_files := files |}
        | Some content =>
            let label := label_of (img_count st + 1) in
            {| img_count := img_count st + 1;
               image_data :=
                 dict_set label
                   {| path := img_path; caption := strip content;
                      label := label |} (image_data st);
               temp_files := files |}
        end
  end.

(** The outer loop, lines 168 to 202: the cap is tested once per page. *)
Fixpoint extract_pages (st : extract_state) (pages : list page)
  : extract_state :=
  match pages with
  | [] => st
  | pg :: pages' =>
      if MAX_IMAGES <=? img_count st then st
      else extract_pages (fold_left extract_image (page_images pg) st) pages'
  end.

Definition extract_content_from_pdf (doc : document)
  : str * str * image_dict * list (str * list Byte.byte) :=
  let full_text := concat (List.map page_text doc) in
  let st := extract_pages
              {| img_count := 0; image_data := []; temp_files := [] |} doc in
  let img_list_text :=
    join [10%N]
         (List.map (fun kv => fst kv ++ py ": " ++ caption (snd kv))
                   (image_data st)) in
  (full_text, img_list_text, image_data st, temp_files st).

End Extraction.

(** ** The driver: one iteration of the loop of [main] *)

(** The two directories [main] moves a source between, as the names they
    hold. *)
Record dirs := {
  input_dir : list str;
  processed_dir : list str
}.

Definition remove_name (n : str) (l : list str) : list str :=
  filter (fun m => negb (str_eqb n m)) l.

(** Lines 420 to 422: a file of that name already processed is replaced.
    Removing and moving are taken to succeed. *)
Definition move_to_processed (d : dirs) (name : str) : dirs :=
  {| input_dir := remove_name name (input_dir d);
     processed_dir := name :: remove_name name (processed_dir d) |}.

Section Main.

Variable rnd : Q -> Q.
Variable markup_ok : str -> bool.
Variable available_width max_height : Q.
Variable load_image : str -> option (Z * Z).
Variable path_stem : str -> str.
Variable build_ok : list flowable -> bool.
Variable llm_caption : nat -> list Byte.byte -> option str.

(** [fitz.open]: the document of a file, or nothing when it cannot be
    opened. *)
Variable open_pdf : str -> option document.

(** [generate_summary]: the report for a text and an image list, or
    nothing when the call raises. *)
Variable llm_summary : str -> str -> option str.

Definition generate_summary (text_content image_list_text : str)
  : result str :=
  match llm_summary text_content image_list_text with
  | Some content => OK content
  | None => Raise SummaryError
  end.

(** What [save_to_pdf] answers for a source file: lines 416 to 419. *)
Definition save_result (pdf_file : str) : result bool :=
  match open_pdf pdf_file with
  | None => Raise DocumentOpenError
  | Some doc =>
      let '(text, img_list, img_data, _) :=
        extract_content_from_pdf llm_caption doc in
      summary <- generate_summary text img_list ;;
      save_to_pdf rnd markup_ok available_width max_height load_image
                  path_stem build_ok summary img_data pdf_file
  end.

(** The body of the loop of [main], lines 415 to 427: any exception is
    printed and the loop goes on. *)
Definition process_file (d : dirs) (pdf_file : str) : dirs :=
  match save_result pdf_file with
  | OK true => move_to_processed d pdf_file
  | OK false => d
  | Raise _ => d
  end.

(** [main]: the sources are the names of the input directory that end in
    [.pdf], listed once before the loop. *)
Definition main (d : dirs) : dirs :=
  let input_files := filter (endswith (py ".pdf")) (input_dir d) in
  fold_left process_file input_files d.

End Main.

(** ** Font detection: [get_jp_font_name] *)

Definition font_paths : list str :=
  [py "C:/Windows/Fonts/msgothic.ttc";
   py "C:/Windows/Fonts/meiryo.ttc";
   py "/System/Library/Fonts/"
      ++ [12498; 12521; 12462; 12494; 35282; 12468; 12471; 12483; 12463]%N
      ++ py " W3.ttc";
   py "/usr/share/fonts/opentype/noto/NotoSansCJK-Regular.ttc"].

Section Fonts.

(** [os.path.exists], and whether [pdfmetrics.registerFont(TTFont(.., path))]
    returns rather than raises. *)
Variable path_exists : str -> bool.
Variable register_ok : str -> bool.

(** The loop of lines 139 to 146 over the paths still to try. *)
Fixpoint first_font (paths : list str) : str :=
  match paths with
  | [] => py "Helvetica"
  | path :: paths' =>
      if path_exists path then
        if register_ok path then py "Japanese" else first_font paths'
      else first_font paths'
  end.

Definition get_jp_font_name : str := first_font font_paths.

End Fonts.

(** ** The chat tool ([src/app.py]): chunking and history formatting *)

Module App.

Definition chunk_size : nat := 500.

(** [text[i:i+chunk_size] for i in range(0, len(text), chunk_size)]: the
    text cut from its head, [fuel] bounding the number of pieces. *)
Fixpoint slices (fuel : nat) (text : str) : list str :=
  match fuel with
  | O => []
  | S fuel' =>
      match text with
      | [] => []
      | _ :: _ =>
          firstn chunk_size text :: slices fuel' (skipn chunk_size text)
      end
  end.

(** Lines 61 to 65: the chunks of one text; a piece of 50 characters or
    fewer is left out. A text has at most as many pieces as characters. *)
Definition chunks_of (text : str) : list str :=
  filter (fun chunk => 50 <? length chunk) (slices (length text) text).

(** Lines 56 to 58: the text of a file, a line break after each page. *)
Definition file_text (pages : list str) : str :=
  concat (List.map (fun page => page ++ [10%N]) pages).

(** The loop of lines 53 to 67 of [load_pdfs]: a file is the texts of its
    pages, or nothing when reading it raises; such a file adds no chunk. *)
Definition load_files (files : list (option (list str))) : list str :=
  flat_map (fun file =>
              match file with
              | Some pages => chunks_of (file_text pages)
              | None => []
              end) files.

Record message := { role : str; content : str }.

(** [msg['content'].replace("\n", " ").replace(",", "，")] *)
Definition clean_content (c : str) : str :=
  replace (py ",") [65292%N] (replace [10%N] (py " ") c).

Definition format_history_toon (history_list : list message) : str :=
  match history_list with
  | [] => []
  | _ :: _ =>
      let count := length history_list in
      let toon_str :=
        [10%N] ++ py "history[" ++ of_nat count ++ py "]{role, content}:"
        ++ [10%N] in
      fold_left (fun toon_str msg =>
                   toon_str ++ role msg ++ py ", "
                   ++ clean_content (content msg) ++ [10%N])
                history_list toon_str
  end.

End App.

(** ** Predicates and sample inputs of the properties *)

(** The text before the first closing pair [a b] of [s], every character
    of it accepted by [dot], and the text after the pair: what a lazy
    group followed by two literal characters matches, without
    backtracking. *)
Fixpoint lazy_until (dot : char -> bool) (a b : char) (s : str)
  : option (str * str) :=
  match s with
  | [] => None
  | c :: s' =>
      match s' with
      | d :: rest =>
          if ((c =? a) && (d =? b))%N then Some ([], rest)
          else if dot c then
            match lazy_until dot a b s' with
            | Some (g, r) => Some (c :: g, r)
            | None => None
            end
          else None
      | [] => None
      end
  end.

(** The cells ReportLab accepts once formatted. *)
Definition cells_ok (markup_ok : str -> bool) (rows : list (list str)) : Prop :=
  Forall (Forall (fun cell => markup_ok (format_inline_bold cell) = true)) rows.

(** Every scratch file holds at least 5000 bytes, and every record of the
    map points to one of them. *)
Definition large_files (st : extract_state) : Prop :=
  Forall (fun f => 5000 <= length (snd f)) (temp_files st)
  /\ Forall (fun kv => In (path (snd kv)) (List.map fst (temp_files st)))
            (image_data st).

(** The buffer of the specification's example. *)
Definition example_buffer : list str :=
  [py "| A | B |"; py "|---|---|"; py "| 1 | 2 |"].

(** The number of data rows of a buffer: the rows kept, less the header. *)
Definition data_rows (raw_data_lines : list str) : nat :=
  length (clean_data_of raw_data_lines) - 1.

(** A buffer of a header and [n] data rows. *)
Definition buffer_of (n : nat) : list str :=
  py "| h |" :: repeat (py "| x |") n.

(** A story with [n] paragraphs, and the loop state that holds it. *)
Definition story_of (n : nat) : list flowable :=
  repeat (Paragraph (py "text") WikiBody) n.

Definition idle (s : list flowable) : loop_state :=
  {| story := s; table_buffer := []; in_table := false |}.

(** One record, as extraction makes them. *)
Definition record_1 : image_record :=
  {| path := py "data/temp_images/img_1.png";
     caption := py "chart";
     label := [22259; 49]%N |}.

(** A rounding that loses precision: down to a multiple of 1/1024. It is
    monotone and leaves 481 and 283 as they are, so the bounds on a scaled
    image hold under it as well. *)
Definition round_1024 (q : Q) : Q :=
  (inject_Z (Qfloor (q * 1024)) / 1024)%Q.

(** *** Rounding to nearest

    Binary floating-point numbers with [p] significant bits and no bound on
    the exponent; a number between two of them is rounded to the nearer
    one, a tie away from zero. With [p = 53] these are Python's floats,
    overflow, underflow and the direction of a tie apart. *)

Definition pow2 (z : Z) : Q := (2 ^ z)%Q.

(** The exponent [e] of a positive number: [2 ^ e <= q < 2 ^ (e + 1)]. *)
Definition binade (q : Q) : Z :=
  let e := (Z.log2 (Qnum q) - Z.log2 (Zpos (Qden q)))%Z in
  if Qle_bool (pow2 e) q then e else (e - 1)%Z.

(** A positive number, rounded to a multiple of [2 ^ (binade q - p + 1)]. *)
Definition nearest_pos (p : Z) (q : Q) : Q :=
  let s := pow2 (p - 1 - binade q) in
  (inject_Z (Qfloor (q * s + (1 # 2))) / s)%Q.

Definition round_bits (p : Z) (q : Q) : Q :=
  match (q ?= 0)%Q with
  | Gt => nearest_pos p q
  | Eq => q
  | Lt => (- nearest_pos p (- q))%Q
  end.

(** A paragraph parser that rejects the cell [<b>total], whose bold tag is
    never closed, and accepts every other text. *)
Definition rejects_unclosed_bold (text : str) : bool :=
  negb (str_eqb text (py "<b>total")).

Definition report_with_bad_table : str :=
  join [10%N] [py "Intro"; py "| item | <b>total |"; py "| a | 1 |";
               py "Closing remark"].

(** Two runs of the driver on one source, [a.pdf]: the build fails in the
    first and succeeds in the second. *)
Definition one_page : document := [{| page_text := py "text"; page_images := [] |}].

Definition run (build_ok : list flowable -> bool) (d : dirs) : dirs :=
  main (fun q => q) (fun _ => true) 481 283 (fun _ => None)
       (fun name => name) build_ok (fun _ _ => None)
       (fun _ => Some one_page) (fun _ _ => Some (py "# Summary")) d.

(** An image of 5000 bytes, and a document of one page with 51 of them. *)
Definition big_image : option (list Byte.byte * str) :=
  Some (repeat Byte.x00 5000, py "png").

Definition crowded_page : document :=
  [{| page_text := []; page_images := repeat big_image 51 |}].

(** *** Predicates of the further properties *)

Definition is_PageBreak (f : flowable) : bool :=
  match f with PageBreak => true | _ => false end.

Definition count_breaks (story : list flowable) : nat :=
  length (filter is_PageBreak story).

(** A line that starts with [# ] once trimmed. *)
Definition is_h1_line (raw : str) : bool := startswith (py "# ") (strip raw).

(** A line that starts with a pipe once trimmed. *)
Definition is_table_line (raw : str) : bool := startswith (py "|") (strip raw).

(** A line written only with pipes, dashes, colons and spaces. *)
Definition separator_line (line : str) : Prop :=
  Forall (fun c => c = chr "|" \/ c = chr "-" \/ c = chr ":" \/ c = chr " ")
         line.

(** The paragraphs of a row of cells in one style. *)
Definition styled (s : style) (row : list str) : list flowable :=
  List.map (fun cell => Paragraph (format_inline_bold cell) s) row.

(** The table of a unit, bare or wrapped in [KeepTogether([t])]. *)
Definition table_of (f : flowable) : option flowable :=
  match f with
  | Table _ _ _ => Some f
  | KeepTogether [Table d w r] => Some (Table d w r)
  | _ => None
  end.

Definition Qsum (l : list Q) : Q := fold_right Qplus 0%Q l.

(** The state of the line loop between tables. *)
Definition idle_state (st : loop_state) : Prop :=
  in_table st = false /\ table_buffer st = [].

(** The largest number of images on a page. *)
Definition max_page_images (pages : list page) : nat :=
  list_max (List.map (fun pg => length (page_images pg)) pages).

(** The tests of the line loop, in the order of the source: a table
    line, an image tag, the four headings, a bullet. *)
Definition line_classes (line : str) : list bool :=
  [startswith (py "|") line;
   match img_match line with Some _ => true | None => false end;
   startswith (py "# ") line;
   startswith (py "## ") line;
   startswith (py "### ") line;
   startswith (py "#### ") line;
   startswith (py "- ") line || startswith (py "* ") line].

(** The keys of the map are the labels of 1 to the counter, in order, and
    each record carries its key and a trimmed caption. *)
Definition sequential (st : extract_state) : Prop :=
  List.map fst (image_data st) = List.map label_of (seq 1 (img_count st))
  /\ Forall (fun kv => label (snd kv) = fst kv
                       /\ strip (caption (snd kv)) = caption (snd kv))
            (image_data st).

(** A document of two pages: a small image, an image that cannot be
    extracted and three images of 5000 bytes. *)
Definition sample_doc : document :=
  [{| page_text := py "one";
      page_images := [Some (repeat Byte.x00 10, py "png"); big_image; None] |};
   {| page_text := py "two"; page_images := [big_image; big_image] |}].

Definition sample_extraction
  : str * str * image_dict * list (str * list Byte.byte) :=
  extract_content_from_pdf (fun _ _ => Some (py " chart ")) sample_doc.

(** A driver in which [bad.pdf] cannot be opened and every other source is
    summarised, laid out and built. *)
Definition sample_main (d : dirs) : dirs :=
  main (fun q => q) (fun _ => true) 481 283 (fun _ => None)
       (fun name => name) (fun _ => true) (fun _ _ => None)
       (fun name => if str_eqb name (py "bad.pdf") then None
                    else Some one_page)
       (fun _ _ => Some (py "# Summary")) d.

Definition sample_dirs : dirs :=
  {| input_dir := [py "bad.pdf"; py "notes.txt"; py "a.pdf"];
     processed_dir := [py "old.pdf"] |}.

(** How many files of a directory bear a name. *)
Definition entries (name : str) (dir : list str) : nat :=
  count_occ (list_eq_dec N.eq_dec) dir name.

(** Directories in which the source [a.pdf] has been archived before. *)
Definition rerun_dirs : dirs :=
  {| input_dir := [py "a.pdf"; py "b.pdf"];
     processed_dir := [py "old.pdf"; py "a.pdf"] |}.

(** A chunk that is kept: more than 50 characters, at most [chunk_size]. *)
Definition chunk_bounds (chunk : str) : Prop :=
  50 < length chunk <= App.chunk_size.

(** The number of line breaks of a text. *)
Definition newlines (s : str) : nat := count_occ N.eq_dec s 10%N.

(** The line of a message in the formatted history. *)
Definition history_line (msg : App.message) : str :=
  App.role msg ++ py ", " ++ App.clean_content (App.content msg) ++ [10%N].

(** A short report: a title, a table between two texts, a heading. *)
Definition sample_report : str :=
  join [10%N] [py "# Title"; py "intro"; py "| a | b |"; py "| 1 | 2 |";
               py "## Part"; py "text"].

(** * Properties *)

(** ** Strings *)

Lemma str_eqb_eq (a b : str) : str_eqb a b = true <-> a = b.
Proof.
  unfold str_eqb. destruct (list_eq_dec N.eq_dec a b); split; congruence.
Qed.

Section StringFacts.

Variable p : char -> bool.

Lemma dropwhile_all (s : str) :
  Forall (fun c => p c = true) s -> dropwhile p s = [].
Proof.
  induction 1 as [|c s Hc _ IH]; simpl; [reflexivity|].
  now rewrite Hc.
Qed.

Lemma Forall_dropwhile (P : char -> Prop) (s : str) :
  Forall P s -> Forall P (dropwhile p s).
Proof.
  induction 1 as [|c s Hc Hs IH]; simpl; [constructor|].
  destruct (p c); [assumption | now constructor].
Qed.

Lemma Forall_strip_by (P : char -> Prop) (s : str) :
  Forall P s -> Forall P (strip_by p s).
Proof.
  intros H. unfold strip_by, rstrip_by, lstrip_by.
  apply Forall_rev, Forall_dropwhile, Forall_rev, Forall_dropwhile, H.
Qed.

Lemma strip_by_all (s : str) :
  Forall (fun c => p c = true) s -> strip_by p s = [].
Proof.
  intros H. unfold strip_by, rstrip_by, lstrip_by.
  now rewrite (dropwhile_all H).
Qed.

(** What [dropwhile] removes, and what it leaves. *)
Lemma dropwhile_split (s : str) :
  exists ws, s = ws ++ dropwhile p s /\ Forall (fun c => p c = true) ws.
Proof.
  induction s as [|c s [ws [E F]]]; simpl.
  - exists []. now split.
  - destruct (p c) eqn:Hc.
    + exists (c :: ws). split; [simpl; now f_equal | now constructor].
    + exists []. now split.
Qed.

Lemma dropwhile_app_stop (a : str) (c : char) (b : str) :
  p c = false ->
  exists a', dropwhile p (a ++ c :: b) = a' ++ c :: b.
Proof.
  intros Hc. induction a as [|x a [a' IH]]; simpl.
  - exists []. now rewrite Hc.
  - destruct (p x); [now exists a' | now exists (x :: a)].
Qed.

End StringFacts.

Lemma split_not_nil (sep : char) (s : str) : split sep s <> [].
Proof.
  destruct s as [|c s]; simpl; [discriminate|].
  destruct (c =? sep)%N; [discriminate|].
  destruct (split sep s); discriminate.
Qed.

(** The pieces of a split hold the characters of the string other than
    the separator. *)
Lemma split_pieces (P : char -> Prop) (sep : char) (s : str) :
  Forall P s ->
  Forall (Forall (fun c => P c /\ c <> sep)) (split sep s).
Proof.
  induction 1 as [|c s Hc Hs IH]; simpl.
  - repeat constructor.
  - destruct (N.eqb_spec c sep) as [E|NE].
    + constructor; [constructor | exact IH].
    + destruct (split sep s) as [|piece pieces].
      * repeat constructor; assumption.
      * inversion IH; subst. constructor; [|assumption].
        constructor; [split|]; assumption.
Qed.

Lemma startswith_app (a s : str) :
  startswith a s = true <-> exists t, s = a ++ t.
Proof.
  revert s. induction a as [|x a IH]; intros s; simpl.
  - split; [now exists s | reflexivity].
  - destruct s as [|y s].
    + split; [discriminate | intros [t E]; discriminate].
    + rewrite andb_true_iff, N.eqb_eq, IH. split.
      * intros [-> [t ->]]. now exists t.
      * intros [t E]. injection E as -> ->. split; [reflexivity | now exists t].
Qed.

(** The lines the loop of [save_to_pdf] sees hold no line break. *)
Lemma lines_have_no_newline (markdown_text : str) :
  Forall (fun raw => ~ In 10%N (strip raw)) (split 10%N markdown_text).
Proof.
  assert (H : Forall (fun _ : char => True) markdown_text)
    by (apply Forall_forall; trivial).
  apply (split_pieces 10%N) in H.
  eapply Forall_impl; [|exact H].
  intros piece Hp Hin.
  apply (Forall_strip_by is_space) in Hp.
  rewrite Forall_forall in Hp. now destruct (Hp _ Hin).
Qed.

(** ** Tables *)

Lemma max_cols_bound (clean_data : list (list str)) :
  Forall (fun row => length row <= max_cols_of clean_data) clean_data.
Proof.
  unfold max_cols_of.
  pose proof (proj1 (list_max_le (List.map (@length str) clean_data) _)
                    (Nat.le_refl _)) as H.
  rewrite Forall_map in H. exact H.
Qed.

Lemma max_cols_attained (clean_data : list (list str)) :
  clean_data <> [] ->
  exists row, In row clean_data /\ length row = max_cols_of clean_data.
Proof.
  unfold max_cols_of. induction clean_data as [|r rows IH]; [congruence|].
  intros _. destruct rows as [|r' rows'].
  - exists r. split; [now left | symmetry; apply Nat.max_0_r].
  - destruct (IH ltac:(discriminate)) as [row [Hin Hlen]].
    remember (r' :: rows') as rest eqn:Erest.
    change (list_max (List.map (@length str) (r :: rest)))
      with (Nat.max (length r) (list_max (List.map (@length str) rest))).
    destruct (Nat.max_spec (length r) (list_max (List.map (@length str) rest)))
      as [[_ E]|[_ E]].
    + exists row. split; [now right | congruence].
    + exists r. split; [now left | congruence].
Qed.

Lemma normalize_rows_length (clean_data : list (list str)) :
  Forall (fun row => length row = max_cols_of clean_data)
         (normalize_rows clean_data).
Proof.
  unfold normalize_rows. rewrite Forall_map.
  eapply Forall_impl; [|apply max_cols_bound].
  intros row H. cbv beta in H. rewrite length_app, repeat_length.
  rewrite Nat.add_comm. apply Nat.sub_add, H.
Qed.

Lemma clean_rows_no_separator (parsed_data : list (list str)) :
  Forall (fun row => is_separator_row row = false) (clean_rows parsed_data).
Proof.
  unfold clean_rows. rewrite Forall_forall. intros row H.
  apply filter_In in H. destruct H as [_ H].
  now apply negb_true_iff.
Qed.

Section TableFacts.

Variable rnd : Q -> Q.
Variable markup_ok : str -> bool.
Variable available_width : Q.

Lemma convert_row_texts (i : nat) (row : list str) (converted : list flowable) :
  convert_row markup_ok i row = OK converted ->
  List.map paragraph_text converted = List.map format_inline_bold row.
Proof.
  unfold convert_row. revert converted.
  induction row as [|cell row IH]; simpl; intros converted H.
  - injection H as <-. reflexivity.
  - unfold mkParagraph in H at 1.
    destruct (markup_ok (format_inline_bold cell)); simpl in H; [|discriminate].
    destruct (mapM _ row) as [bs|e]; simpl in H; [|discriminate].
    injection H as <-. simpl. f_equal. now apply IH.
Qed.

Lemma convert_rows_texts (rows : list (list str)) :
  forall i table_data,
    convert_rows markup_ok i rows = OK table_data ->
    List.map (List.map paragraph_text) table_data
    = List.map (List.map format_inline_bold) rows.
Proof.
  induction rows as [|row rows IH]; simpl; intros i table_data H.
  - injection H as <-. reflexivity.
  - destruct (convert_row markup_ok i row) as [c|e] eqn:Hc; simpl in H; [|discriminate].
    destruct (convert_rows markup_ok (S i) rows) as [d|e] eqn:Hd; simpl in H; [|discriminate].
    injection H as <-. simpl. f_equal; [eapply convert_row_texts; eassumption|].
    eapply IH; eassumption.
Qed.

Lemma convert_row_total (i : nat) (row : list str) :
  Forall (fun cell => markup_ok (format_inline_bold cell) = true) row ->
  exists converted, convert_row markup_ok i row = OK converted.
Proof.
  unfold convert_row. induction 1 as [|cell row Hc _ [bs IH]]; simpl.
  - now eexists.
  - unfold mkParagraph at 1. rewrite Hc. simpl. rewrite IH. simpl. now eexists.
Qed.

Lemma convert_rows_total (rows : list (list str)) :
  cells_ok markup_ok rows ->
  forall i, exists table_data, convert_rows markup_ok i rows = OK table_data.
Proof.
  induction 1 as [|row rows Hr _ IH]; intros i; simpl.
  - now eexists.
  - destruct (convert_row_total i Hr) as [c ->].
    destruct (IH (S i)) as [d ->]. simpl. now eexists.
Qed.

(** What [create_paragraph_table] returns, in terms of the rows kept. *)
Lemma create_paragraph_table_spec (raw_data_lines : list str) :
  create_paragraph_table rnd markup_ok available_width raw_data_lines =
  match clean_data_of raw_data_lines with
  | [] => OK None
  | _ :: _ =>
      table_data <- convert_rows markup_ok 0 (normalized_data_of raw_data_lines) ;;
      let t := Table table_data
                 (repeat (fdiv rnd available_width
                            (inject_Z (Z.of_nat (max_cols_of (clean_data_of raw_data_lines)))))
                         (max_cols_of (clean_data_of raw_data_lines))) 1 in
      OK (Some (if length (clean_data_of raw_data_lines) <? 30
                then KeepTogether [t] else t))
  end.
Proof.
  unfold create_paragraph_table, normalized_data_of, clean_data_of.
  destruct raw_data_lines as [|l ls]; [reflexivity|].
  destruct (clean_rows (parse_markdown_table (l :: ls))); reflexivity.
Qed.

Lemma create_paragraph_table_rows (raw_data_lines : list str) (t : flowable) :
  create_paragraph_table rnd markup_ok available_width raw_data_lines = OK (Some t) ->
  table_rows t = List.map (List.map format_inline_bold)
                          (normalized_data_of raw_data_lines)
  /\ length (table_colWidths t) = max_cols_of (clean_data_of raw_data_lines)
  /\ is_KeepTogether t = (length (clean_data_of raw_data_lines) <? 30).
Proof.
  rewrite create_paragraph_table_spec.
  destruct (clean_data_of raw_data_lines) as [|r rs] eqn:E; [discriminate|].
  destruct (convert_rows markup_ok 0 _) as [d|e] eqn:Hd; simpl; [|discriminate].
  intros H. injection H as <-.
  apply convert_rows_texts in Hd.
  destruct (_ <? 30); cbn [table_rows table_colWidths is_KeepTogether];
    rewrite Hd, repeat_length; auto.
Qed.

End TableFacts.

Lemma create_paragraph_table_total
      (rnd : Q -> Q) (markup_ok : str -> bool) (available_width : Q)
      (raw_data_lines : list str) :
  clean_data_of raw_data_lines <> [] ->
  cells_ok markup_ok (normalized_data_of raw_data_lines) ->
  exists t, create_paragraph_table rnd markup_ok available_width raw_data_lines
            = OK (Some t).
Proof.
  intros Hne Hok. rewrite create_paragraph_table_spec.
  destruct (clean_data_of raw_data_lines) as [|r rs]; [congruence|].
  destruct (convert_rows_total Hok 0) as [d ->]. simpl. now eexists.
Qed.

(** C1: for every table buffer, once the separator rows are removed, the
    column count is the largest number of cells among the rows kept, every
    row is the row kept followed by empty cells up to that count, and a
    table that is emitted holds exactly those rows (formatted), each of
    column-count cells; the buffer [| A | B |], [|---|---|], [| 1 | 2 |]
    gives the rows [A, B] and [1, 2] with two columns. *)
Theorem C1_rows_padded_to_column_count :
  (forall raw_data_lines : list str,
      let clean_data := clean_data_of raw_data_lines in
      let column_count := max_cols_of clean_data in
      Forall (fun row => is_separator_row row = false) clean_data
      /\ Forall (fun row => length row <= column_count) clean_data
      /\ (clean_data <> [] ->
          exists row, In row clean_data /\ length row = column_count)
      /\ normalized_data_of raw_data_lines
         = List.map (fun row => row ++ repeat [] (column_count - length row))
                    clean_data
      /\ Forall (fun row => length row = column_count)
                (normalized_data_of raw_data_lines)
      /\ forall rnd markup_ok available_width,
          (clean_data = [] ->
           create_paragraph_table rnd markup_ok available_width raw_data_lines
           = OK None)
          /\ (clean_data <> [] ->
              cells_ok markup_ok (normalized_data_of raw_data_lines) ->
              exists t,
                create_paragraph_table rnd markup_ok available_width
                                       raw_data_lines = OK (Some t))
          /\ forall t,
              create_paragraph_table rnd markup_ok available_width
                                     raw_data_lines = OK (Some t) ->
              table_rows t = List.map (List.map format_inline_bold)
                                      (normalized_data_of raw_data_lines)
              /\ Forall (fun row => length row = column_count) (table_rows t)
              /\ length (table_colWidths t) = column_count)
  /\ normalized_data_of example_buffer
     = [[py "A"; py "B"]; [py "1"; py "2"]]
  /\ max_cols_of (clean_data_of example_buffer) = 2
  /\ forall rnd markup_ok available_width,
      Forall (fun cell => markup_ok cell = true)
             [py "A"; py "B"; py "1"; py "2"] ->
      exists t,
        create_paragraph_table rnd markup_ok available_width example_buffer
        = OK (Some t)
        /\ table_rows t = [[py "A"; py "B"]; [py "1"; py "2"]]
        /\ length (table_colWidths t) = 2.
Proof.
  split; [|split; [reflexivity | split; [reflexivity|]]].
  - intros raw clean_data column_count. subst clean_data column_count.
    split; [apply clean_rows_no_separator|].
    split; [apply max_cols_bound|].
    split; [apply max_cols_attained|].
    split; [reflexivity|].
    split; [apply normalize_rows_length|].
    intros rnd markup_ok aw.
    split; [|split].
    + intros E. rewrite create_paragraph_table_spec, E. reflexivity.
    + apply create_paragraph_table_total.
    + intros t Ht.
      destruct (create_paragraph_table_rows _ _ _ _ Ht) as [Hrows [Hw _]].
      split; [exact Hrows|]. split; [|exact Hw].
      rewrite Hrows, Forall_map.
      eapply Forall_impl; [|apply normalize_rows_length].
      intros row Hlen. now rewrite length_map.
  - intros rnd markup_ok aw Hok.
    destruct (@create_paragraph_table_total rnd markup_ok aw example_buffer)
      as [t Ht].
    + discriminate.
    + rewrite Forall_forall in Hok.
      repeat constructor; apply Hok; vm_compute; tauto.
    + exists t. split; [exact Ht|].
      destruct (create_paragraph_table_rows _ _ _ _ Ht) as [Hrows [Hw _]].
      split; [exact Hrows | exact Hw].
Qed.

(** C10: a row whose cells are all empty is a separator row, since the
    concatenation of its cells is the empty string; a line made only of
    pipes and white space is parsed into such a row; and a buffer made
    only of such lines keeps no row, so no table is built from it. *)
Theorem C10_empty_rows_are_separators :
  (forall line : str,
      Forall (fun cell => cell = []) (parse_row line) ->
      concat (parse_row line) = []
      /\ is_separator_row (parse_row line) = true)
  /\ (forall line : str,
         Forall (fun c => c = chr "|" \/ is_space c = true) line ->
         Forall (fun cell => cell = []) (parse_row line))
  /\ (forall raw_data_lines : list str,
         Forall (fun line => Forall (fun cell => cell = []) (parse_row line))
                raw_data_lines ->
         clean_data_of raw_data_lines = []
         /\ forall rnd markup_ok available_width,
             create_paragraph_table rnd markup_ok available_width
                                    raw_data_lines = OK None)
  /\ parse_row (py "|  | |") = [[]; []]
  /\ clean_data_of [py "|  | |"; py "|"; py "||"] = [].
Proof.
  assert (Hsep : forall line : str,
             Forall (fun cell => cell = []) (parse_row line) ->
             concat (parse_row line) = []
             /\ is_separator_row (parse_row line) = true).
  { intros line H.
    assert (Hc : concat (parse_row line) = []).
    { induction H as [|cell row -> _ IH]; [reflexivity | exact IH]. }
    split; [exact Hc|].
    unfold is_separator_row. rewrite Hc. simpl. rewrite andb_true_r.
    unfold parse_row. rewrite length_map.
    destruct (split (chr "|") (strip_char (chr "|") line)) eqn:E; [|reflexivity].
    now apply split_not_nil in E. }
  split; [exact Hsep|].
  split; [|split; [|split; reflexivity]].
  - intros line H. unfold parse_row. rewrite Forall_map.
    apply (Forall_strip_by (N.eqb (chr "|"))) in H.
    apply (split_pieces (chr "|")) in H.
    eapply Forall_impl; [|exact H].
    intros piece Hp. apply strip_by_all.
    eapply Forall_impl; [|exact Hp].
    intros c [[Hc|Hc] Hne]; [contradiction | exact Hc].
  - intros raw H.
    assert (E : clean_data_of raw = []).
    { unfold clean_data_of, clean_rows, parse_markdown_table.
      induction H as [|line raw Hl _ IH]; [reflexivity|].
      simpl. destruct (0 <? length (parse_row line)); [|exact IH].
      simpl. destruct (Hsep line Hl) as [_ ->]. simpl. exact IH. }
    split; [exact E|].
    intros rnd markup_ok aw. rewrite create_paragraph_table_spec, E. reflexivity.
Qed.

(** C2, as stated, fails: a table of 29 data rows (30 rows with the
    header) is returned bare, not inside [KeepTogether]. *)
Lemma C2_counterexample_29_data_rows :
  data_rows (buffer_of 29) = 29
  /\ exists t,
      create_paragraph_table (fun q => q) (fun _ => true) 481 (buffer_of 29)
      = OK (Some t)
      /\ is_KeepTogether t = false.
Proof.
  split; [reflexivity|].
  eexists. split; [vm_compute; reflexivity | reflexivity].
Qed.

(** C2, amended: the table is wrapped in [KeepTogether] exactly when the
    rows kept, header included, are fewer than 30, that is when it has
    fewer than 29 data rows; with 29 data rows or more it is returned
    bare. A table of 28 data rows is wrapped, one of 29 is not. *)
Theorem C2_keep_together_below_30_rows
        (rnd : Q -> Q) (markup_ok : str -> bool) (available_width : Q)
        (raw_data_lines : list str) :
  clean_data_of raw_data_lines <> [] ->
  cells_ok markup_ok (normalized_data_of raw_data_lines) ->
  exists t,
    create_paragraph_table rnd markup_ok available_width raw_data_lines
    = OK (Some t)
    /\ (is_KeepTogether t = true <-> length (clean_data_of raw_data_lines) < 30)
    /\ (is_KeepTogether t = true <-> data_rows raw_data_lines < 29)
    /\ (is_KeepTogether t = false ->
        exists d w, t = Table d w 1 /\ 29 <= data_rows raw_data_lines).
Proof.
  intros Hne Hok.
  pose proof (create_paragraph_table_spec rnd markup_ok available_width
                                          raw_data_lines) as Hspec.
  unfold data_rows.
  destruct (clean_data_of raw_data_lines) as [|r rs] eqn:E; [congruence|].
  destruct (convert_rows_total Hok 0) as [d Hd].
  rewrite Hd in Hspec. simpl in Hspec.
  eexists. split; [exact Hspec|].
  cbn [length] in *.
  destruct (Nat.ltb_spec (S (length rs)) 30) as [Hlt|Hge].
  - simpl. split; [|split].
    + split; intros; [lia | reflexivity].
    + split; intros; [lia | reflexivity].
    + discriminate.
  - simpl. split; [|split].
    + split; [discriminate | lia].
    + split; [discriminate | lia].
    + intros _. do 2 eexists. split; [reflexivity | lia].
Qed.

Lemma C2_keep_together_witness :
  exists t,
    create_paragraph_table (fun q => q) (fun _ => true) 481 (buffer_of 28)
    = OK (Some t)
    /\ (is_KeepTogether t = true <-> length (clean_data_of (buffer_of 28)) < 30)
    /\ (is_KeepTogether t = true <-> data_rows (buffer_of 28) < 29)
    /\ (is_KeepTogether t = false ->
        exists d w, t = Table d w 1 /\ 29 <= data_rows (buffer_of 28)).
Proof.
  apply (@C2_keep_together_below_30_rows
           (fun q => q) (fun _ => true) 481 (buffer_of 28)).
  - vm_compute. discriminate.
  - apply Forall_forall. intros row _. apply Forall_forall. reflexivity.
Defined.

(** ** The lazy group of the image tag *)

Lemma lazy_until_step (dot : char -> bool) (a b c d : char) (rest : str) :
  lazy_until dot a b (c :: d :: rest) =
  if ((c =? a) && (d =? b))%N then Some ([], rest)
  else if dot c then
         match lazy_until dot a b (d :: rest) with
         | Some (g, r) => Some (c :: g, r)
         | None => None
         end
       else None.
Proof. reflexivity. Qed.

Lemma lazy_until_some (dot : char -> bool) (a b : char) (s g r : str) :
  lazy_until dot a b s = Some (g, r) -> s = g ++ a :: b :: r.
Proof.
  revert g r. induction s as [|c s IH]; intros g r; [discriminate|].
  destruct s as [|d rest]; [discriminate|].
  rewrite lazy_until_step.
  destruct ((c =? a)%N && (d =? b)%N) eqn:Hp.
  - apply andb_true_iff in Hp. destruct Hp as [Hc Hd].
    apply N.eqb_eq in Hc, Hd.
    intros H. inversion H. subst. reflexivity.
  - destruct (dot c); [|discriminate].
    destruct (lazy_until dot a b (d :: rest)) as [[g' r']|]; [|discriminate].
    intros H. inversion H. subst.
    change ((c :: g') ++ a :: b :: r) with (c :: (g' ++ a :: b :: r)).
    f_equal. now apply IH.
Qed.

Lemma lazy_until_total (dot : char -> bool) (a b : char) (x tail : str) :
  Forall (fun c => dot c = true) x ->
  exists g r, lazy_until dot a b (x ++ a :: b :: tail) = Some (g, r).
Proof.
  induction 1 as [|c x Hc _ [g [r IH]]].
  - simpl. rewrite !N.eqb_refl. simpl. now do 2 eexists.
  - change ((c :: x) ++ a :: b :: tail) with (c :: (x ++ a :: b :: tail)).
    remember (x ++ a :: b :: tail) as s eqn:Es.
    destruct s as [|d rest]; [destruct x; discriminate|].
    rewrite lazy_until_step.
    destruct ((c =? a)%N && (d =? b)%N); [now do 2 eexists|].
    rewrite Hc, IH. now do 2 eexists.
Qed.

(** *** The backtracking match of the image tag, without backtracking *)

Lemma re_match_lits (t : str) (pattern : list re_item) (s : str) :
  re_match (lits t ++ pattern) s =
  if startswith t s then re_match pattern (skipn (length t) s) else None.
Proof.
  revert s. induction t as [|c t IH]; intros s; [reflexivity|].
  destruct s as [|d s]; [reflexivity|].
  change (re_match (lits (c :: t) ++ pattern) (d :: s))
    with (if (c =? d)%N then re_match (lits t ++ pattern) s else None).
  change (startswith (c :: t) (d :: s)) with ((c =? d)%N && startswith t s).
  destruct (c =? d)%N; [apply IH | reflexivity].
Qed.

Lemma lazy_run_unfold (k : str -> re_result) (p : char -> bool) (acc s : str) :
  lazy_run k p acc s =
  match k s with
  | Some (groups, rest) => Some (rev acc :: groups, rest)
  | None =>
      match s with
      | c :: s' => if p c then lazy_run k p (c :: acc) s' else None
      | [] => None
      end
  end.
Proof. destruct s; reflexivity. Qed.

Lemma closing_pair (a b : char) (s : str) :
  re_match (lits [a; b]) s =
  match s with
  | c :: d :: rest =>
      if ((c =? a) && (d =? b))%N then Some ([], rest) else None
  | _ => None
  end.
Proof.
  destruct s as [|c [|d rest]]; simpl; [reflexivity | |].
  - now destruct (a =? c)%N.
  - rewrite (N.eqb_sym a c), (N.eqb_sym b d).
    now destruct (c =? a)%N, (d =? b)%N.
Qed.

(** A lazy group followed by a closing pair stops at the first pair. *)
Lemma lazy_run_closing (dot : char -> bool) (a b : char) (s : str) :
  forall acc,
    lazy_run (re_match (lits [a; b])) dot acc s =
    match lazy_until dot a b s with
    | Some (g, r) => Some ([rev acc ++ g], r)
    | None => None
    end.
Proof.
  induction s as [|c s IH]; intros acc; [reflexivity|].
  rewrite lazy_run_unfold, closing_pair.
  destruct s as [|d rest].
  - simpl. now destruct (dot c).
  - rewrite lazy_until_step.
    destruct ((c =? a)%N && (d =? b)%N).
    + now rewrite app_nil_r.
    + destruct (dot c); [|reflexivity].
      rewrite IH. destruct (lazy_until dot a b (d :: rest)) as [[g r]|];
        [|reflexivity].
      simpl. now rewrite <- app_assoc.
Qed.

(** A greedy star gives nothing back when the characters it took cannot
    help what follows. *)
Lemma star_run_skip (k : str -> re_result) (p : char -> bool) :
  (forall c t, p c = true -> k t = None -> k (c :: t) = None) ->
  forall s, star_run k p s = k (dropwhile p s).
Proof.
  intros Hk.
  assert (Hnone : forall t, k (dropwhile p t) = None -> k t = None).
  { induction t as [|x t IHt]; simpl; [trivial|].
    destruct (p x) eqn:Hx; [|trivial]. intros H. apply Hk; auto. }
  induction s as [|c s IH]; [reflexivity|].
  simpl. destruct (p c) eqn:Hc; [|reflexivity].
  rewrite IH. destruct (k (dropwhile p s)) as [r|] eqn:E; [reflexivity|].
  apply Hk; auto.
Qed.

Lemma lazy_until_after (dot : char -> bool) (a b c : char) (t : str) :
  c <> a -> lazy_until dot a b t = None -> lazy_until dot a b (c :: t) = None.
Proof.
  intros Hc Ht. destruct t as [|d rest]; [reflexivity|].
  rewrite lazy_until_step, Ht.
  destruct (N.eqb_spec c a); [contradiction|]. simpl. now destruct (dot c).
Qed.

Lemma img_match_unfold (line : str) :
  img_match line =
  if startswith (py "[[IMG:") line then
    match lazy_until re_dot (chr "]") (chr "]")
                     (dropwhile is_space (skipn 6 line)) with
    | Some (g, _) => Some g
    | None => None
    end
  else None.
Proof.
  unfold img_match, img_pattern. rewrite re_match_lits.
  destruct (startswith (py "[[IMG:") line); [|reflexivity].
  change (length (py "[[IMG:")) with 6.
  change (re_match ([Star is_space; LazyGroup re_dot] ++ lits (py "]]")))
    with (star_run (lazy_run (re_match (lits [chr "]"; chr "]"])) re_dot [])
                   is_space).
  rewrite star_run_skip.
  - rewrite lazy_run_closing.
    now destruct (lazy_until _ _ _ _) as [[g r]|].
  - intros c t Hc. rewrite !lazy_run_closing.
    destruct (lazy_until re_dot (chr "]") (chr "]") t) as [[g r]|] eqn:E;
      [discriminate|].
    intros _. rewrite lazy_until_after; [reflexivity | | exact E].
    intros ->. discriminate.
Qed.

Lemma img_match_shape (line g : str) :
  img_match line = Some g ->
  exists ws tail,
    line = py "[[IMG:" ++ ws ++ g ++ py "]]" ++ tail
    /\ Forall (fun c => is_space c = true) ws.
Proof.
  rewrite img_match_unfold.
  destruct (startswith (py "[[IMG:") line) eqn:Hs; [|discriminate].
  apply startswith_app in Hs. destruct Hs as [rest ->].
  change (skipn 6 (py "[[IMG:" ++ rest)) with rest.
  destruct (lazy_until _ _ _ _) as [[g' r]|] eqn:Hl; [|discriminate].
  intros H. injection H as <-.
  apply lazy_until_some in Hl.
  destruct (dropwhile_split is_space rest) as [ws [E F]].
  exists ws, r. split; [|exact F].
  rewrite E at 1. rewrite Hl. reflexivity.
Qed.

Lemma img_match_total (body tail : str) :
  ~ In 10%N (body ++ py "]]" ++ tail) ->
  exists g, img_match (py "[[IMG:" ++ body ++ py "]]" ++ tail) = Some g.
Proof.
  intros Hnl. rewrite img_match_unfold.
  assert (Hs : startswith (py "[[IMG:") (py "[[IMG:" ++ body ++ py "]]" ++ tail) = true)
    by (apply startswith_app; now eexists).
  rewrite Hs.
  change (skipn 6 (py "[[IMG:" ++ body ++ py "]]" ++ tail))
    with (body ++ chr "]" :: chr "]" :: tail).
  destruct (@dropwhile_app_stop is_space body (chr "]") (chr "]" :: tail) eq_refl)
    as [body' E].
  rewrite E.
  destruct (@lazy_until_total re_dot (chr "]") (chr "]") body' tail) as [g [r ->]];
    [|now exists g].
  destruct (dropwhile_split is_space (body ++ chr "]" :: chr "]" :: tail))
    as [ws [E' _]].
  rewrite E in E'.
  apply Forall_forall. intros c Hc. unfold re_dot.
  destruct (N.eqb_spec c 10) as [->|]; [|reflexivity].
  exfalso. apply Hnl.
  change (py "]]" ++ tail) with (chr "]" :: chr "]" :: tail).
  rewrite E'. apply in_or_app. right. apply in_or_app. now left.
Qed.

Section LayoutFacts.

Variable rnd : Q -> Q.
Variable markup_ok : str -> bool.
Variable available_width max_height : Q.
Variable load_image : str -> option (Z * Z).
Variable image_data_dict : image_dict.

Abbreviation flush := (flush_table rnd markup_ok available_width).
Abbreviation step :=
  (process_line rnd markup_ok available_width max_height load_image
                image_data_dict).
Abbreviation steps :=
  (process_lines rnd markup_ok available_width max_height load_image
                 image_data_dict).
Abbreviation unit_of := (image_unit rnd markup_ok available_width max_height load_image).

Lemma bind_OK {A} (r : result A) : (a <- r ;; OK a) = r.
Proof. now destruct r. Qed.

(** A blank line only finalizes a pending table. *)
Lemma process_line_blank (st : loop_state) :
  step st [] = flush st.
Proof. unfold process_line. simpl. apply bind_OK. Qed.

(** A line the image pattern matches. *)
Lemma process_line_image (st : loop_state) (raw g : str) :
  img_match (strip raw) = Some g ->
  step st raw =
  (st1 <- flush st ;;
   match dict_get (label_key_of g) image_data_dict with
   | Some info => OK (with_story st1 (story st1 ++ unit_of info))
   | None => OK st1
   end).
Proof.
  intros Hm. unfold process_line. cbv zeta.
  destruct (img_match_shape _ Hm) as [ws [tail [E _]]].
  rewrite Hm. rewrite E. reflexivity.
Qed.

(** A line that starts with [# ]. *)
Lemma process_line_h1 (st : loop_state) (raw : str) :
  startswith (py "# ") (strip raw) = true ->
  step st raw =
  (st1 <- flush st ;;
   p <- mkParagraph markup_ok (strip (replace (py "# ") [] (strip raw))) WikiH1 ;;
   OK (with_story st1
         (story st1
          ++ (if 5 <? length (story st1) then [PageBreak] else [])
          ++ [h1_group p]))).
Proof.
  intros Hs. unfold process_line. cbv zeta.
  destruct (proj1 (startswith_app _ _) Hs) as [t E].
  assert (Hm : img_match (strip raw) = None) by (rewrite E; reflexivity).
  rewrite Hm. unfold text_block. rewrite Hs. rewrite E.
  change (startswith (py "|") (py "# " ++ t)) with false. cbv iota.
  change (py "# " ++ t) with (35%N :: 32%N :: t).
  destruct (flush st) as [st1|e]; [|reflexivity]. simpl bind.
  destruct (mkParagraph markup_ok _ WikiH1) as [p|e]; [|reflexivity]. simpl bind.
  destruct (5 <? length (story st1)); [|reflexivity].
  now rewrite <- app_assoc.
Qed.

(** An exception of the pending table leaves the loop. *)
Lemma table_error_propagates (st : loop_state) (raw : str) (rest : list str)
      (e : exn) :
  in_table st = true ->
  create_paragraph_table rnd markup_ok available_width (table_buffer st)
  = Raise e ->
  startswith (py "|") (strip raw) = false ->
  step st raw = Raise e /\ steps st (raw :: rest) = Raise e.
Proof.
  intros Ht He Hs.
  assert (H : step st raw = Raise e).
  { unfold process_line. cbv zeta. rewrite Hs. unfold flush_table.
    now rewrite Ht, He. }
  split; [exact H|]. simpl. now rewrite H.
Qed.

(** C3, amended: when a line starting with [# ] is processed, a page break
    is put immediately before the heading group exactly when more than five
    units are already in the story, the three units of the title block
    counted among them and a table finalized by this line included; with
    five units or fewer no page break is put. Whether a heading is the
    first one of the document plays no part. *)
Theorem C3_h1_page_break_after_five_units (st : loop_state) (raw : str) :
  startswith (py "# ") (strip raw) = true ->
  let text := strip (replace (py "# ") [] (strip raw)) in
  step st raw =
  (st1 <- flush st ;;
   p <- mkParagraph markup_ok text WikiH1 ;;
   OK (with_story st1
         (story st1
          ++ (if 5 <? length (story st1) then [PageBreak] else [])
          ++ [h1_group p])))
  /\ (forall st',
         step st raw = OK st' ->
         exists st1,
           flush st = OK st1
           /\ (5 < length (story st1) <->
               story st' = story st1 ++ [PageBreak; h1_group (Paragraph text WikiH1)])
           /\ (length (story st1) <= 5 <->
               story st' = story st1 ++ [h1_group (Paragraph text WikiH1)]))
  /\ (in_table st = false -> length (story st) <= 5 ->
      markup_ok text = true ->
      step st raw
      = OK (with_story st (story st ++ [h1_group (Paragraph text WikiH1)])))
  /\ (in_table st = false -> 5 < length (story st) ->
      markup_ok text = true ->
      step st raw
      = OK (with_story st
              (story st ++ [PageBreak; h1_group (Paragraph text WikiH1)]))).
Proof.
  intros Hs text. pose proof (process_line_h1 st raw Hs) as Hstep.
  fold text in Hstep.
  split; [exact Hstep|]. split; [|split].
  - intros st' Hst'. rewrite Hstep in Hst'.
    destruct (flush st) as [st1|e]; [|discriminate]. simpl in Hst'.
    unfold mkParagraph in Hst'.
    destruct (markup_ok text); [|discriminate]. simpl in Hst'.
    injection Hst' as <-. exists st1. split; [reflexivity|].
    cbn [story with_story].
    destruct (Nat.ltb_spec 5 (length (story st1))) as [Hgt|Hle].
    + split; split; intros H; try reflexivity; try assumption.
      * exfalso. lia.
      * exfalso. apply app_inv_head in H. discriminate.
    + split; split; intros H; try reflexivity; try assumption.
      * exfalso. lia.
      * exfalso. apply app_inv_head in H. discriminate.
  - intros Ht Hlen Hok. rewrite Hstep. unfold flush_table, mkParagraph.
    rewrite Ht, Hok. simpl.
    destruct (Nat.ltb_spec 5 (length (story st))); [lia | reflexivity].
  - intros Ht Hlen Hok. rewrite Hstep. unfold flush_table, mkParagraph.
    rewrite Ht, Hok. simpl.
    destruct (Nat.ltb_spec 5 (length (story st))); [reflexivity | lia].
Qed.

(** C5, amended: a trimmed line is treated as an image reference exactly
    when it begins with [[[IMG:] and a closing []]] occurs later in the
    line. Text before the tag prevents this; text after the closing []]]
    does not, and is dropped: the line adds the image unit of the label,
    or nothing, and no paragraph. *)
Theorem C5_image_tag_is_a_prefix_match (line : str) :
  ~ In 10%N line ->
  ((exists g, img_match line = Some g) <->
   (exists body tail, line = py "[[IMG:" ++ body ++ py "]]" ++ tail))
  /\ (startswith (py "[[IMG:") line = false -> img_match line = None)
  /\ forall (st : loop_state) (raw g : str),
      strip raw = line ->
      img_match line = Some g ->
      step st raw =
      (st1 <- flush st ;;
       match dict_get (label_key_of g) image_data_dict with
       | Some info => OK (with_story st1 (story st1 ++ unit_of info))
       | None => OK st1
       end).
Proof.
  intros Hnl. split; [split|split].
  - intros [g Hg]. destruct (img_match_shape _ Hg) as [ws [tail [E _]]].
    exists (ws ++ g), tail. rewrite E. now rewrite <- app_assoc.
  - intros [body [tail E]]. subst line. apply img_match_total.
    intros Hin. apply Hnl. apply in_or_app. now right.
  - intros Hs. rewrite img_match_unfold. now rewrite Hs.
  - intros st raw g <- Hg. now apply process_line_image.
Qed.

(** C6, amended: an image-reference line whose label, trimmed and with
    every space removed, is not a key of the image map adds no unit and
    raises nothing: it does what a blank line does, and the document is
    laid out as if the line were blank. *)
Theorem C6_unknown_label_is_skipped (st : loop_state) (raw g : str) :
  img_match (strip raw) = Some g ->
  dict_get (label_key_of g) image_data_dict = None ->
  step st raw = flush st
  /\ step st raw = step st []
  /\ (in_table st = false -> step st raw = OK st)
  /\ forall (st0 : loop_state) (before after : list str),
      steps st0 (before ++ raw :: after) = steps st0 (before ++ [] :: after).
Proof.
  intros Hm Hk.
  assert (Hall : forall s, step s raw = flush s).
  { intros s. rewrite (process_line_image s raw Hm), Hk. apply bind_OK. }
  split; [apply Hall|]. split; [|split].
  - now rewrite Hall, process_line_blank.
  - intros Ht. rewrite Hall. unfold flush_table. now rewrite Ht.
  - intros st0 before. revert st0.
    induction before as [|l before IH]; intros st0 after; simpl.
    + now rewrite Hall, process_line_blank.
    + destruct (step st0 l) as [st1|e]; simpl; [apply IH | reflexivity].
Qed.

End LayoutFacts.

Lemma C3_h1_page_break_witness :
  let step := process_line (fun q => q) (fun _ => true) 481 283
                           (fun _ => None) [] in
  step (idle (story_of 6)) (py "# Results")
  = OK (idle (story_of 6
              ++ [PageBreak; h1_group (Paragraph (py "Results") WikiH1)]))
  /\ step (idle (story_of 5)) (py "# Results")
     = OK (idle (story_of 5 ++ [h1_group (Paragraph (py "Results") WikiH1)])).
Proof.
  pose proof (@C3_h1_page_break_after_five_units
                (fun q => q) (fun _ => true) 481 283 (fun _ => None) []
                (idle (story_of 6)) (py "# Results") eq_refl) as H6.
  pose proof (@C3_h1_page_break_after_five_units
                (fun q => q) (fun _ => true) 481 283 (fun _ => None) []
                (idle (story_of 5)) (py "# Results") eq_refl) as H5.
  cbv zeta in *.
  destruct H6 as [_ [_ [_ H6]]]. destruct H5 as [_ [_ [H5 _]]].
  split.
  - apply H6; [reflexivity | simpl; lia | reflexivity].
  - apply H5; [reflexivity | simpl; lia | reflexivity].
Defined.

(** C3, as stated, fails for "the very first top-level heading": in the
    document of three paragraphs and then a first heading, six units (the
    three of the title block and the paragraphs) are in the story when the
    heading arrives, and a page break is put before it. *)
Lemma C3_counterexample_first_heading_breaks :
  build_story (fun q => q) (fun _ => true) 481 283 (fun _ => None)
              (fun name => name)
              (join [10%N] [py "a"; py "b"; py "c"; py "# T"]) [] (py "doc")
  = OK [Paragraph (py "doc" ++ title_suffix) MainTitle;
        Drawing TitleRule; Spacer 1;
        Paragraph (py "a") WikiBody; Paragraph (py "b") WikiBody;
        Paragraph (py "c") WikiBody;
        PageBreak;
        h1_group (Paragraph (py "T") WikiH1)].
Proof. vm_compute. reflexivity. Qed.

(** The specification's example: a title heading, sixty paragraphs and a
    second heading. Only the second heading gets a page break. *)
Example sixty_paragraphs_between_headings :
  build_story (fun q => q) (fun _ => true) 481 283 (fun _ => None)
              (fun name => name)
              (join [10%N] ([py "# Title"] ++ repeat (py "filler") 60
                            ++ [py "# Next Title"])) [] (py "doc")
  = OK ([Paragraph (py "doc" ++ title_suffix) MainTitle;
         Drawing TitleRule; Spacer 1;
         h1_group (Paragraph (py "Title") WikiH1)]
        ++ repeat (Paragraph (py "filler") WikiBody) 60
        ++ [PageBreak; h1_group (Paragraph (py "Next Title") WikiH1)]).
Proof. vm_compute. reflexivity. Qed.

(** Two headings in a row at the start: neither gets a page break. *)
Example second_heading_without_break :
  build_story (fun q => q) (fun _ => true) 481 283 (fun _ => None)
              (fun name => name)
              (join [10%N] [py "# One"; py "# Two"]) [] (py "doc")
  = OK [Paragraph (py "doc" ++ title_suffix) MainTitle;
        Drawing TitleRule; Spacer 1;
        h1_group (Paragraph (py "One") WikiH1);
        h1_group (Paragraph (py "Two") WikiH1)].
Proof. vm_compute. reflexivity. Qed.

Lemma C5_image_tag_witness :
  (exists g, img_match (py "[[IMG: fig1]] as shown") = Some g)
  <-> (exists body tail,
          py "[[IMG: fig1]] as shown" = py "[[IMG:" ++ body ++ py "]]" ++ tail).
Proof.
  refine (proj1 (@C5_image_tag_is_a_prefix_match
                   (fun q => q) (fun _ => true) 481 283 (fun _ => None) []
                   (py "[[IMG: fig1]] as shown") _)).
  vm_compute. intuition discriminate.
Defined.

(** C5, as stated, fails: a tag followed by prose on the same line is
    still taken as an image reference; the image unit is added and the
    prose is dropped. *)
Lemma C5_counterexample_trailing_prose :
  let line := py "[[IMG: fig1]] as shown above" in
  strip line = line
  /\ (forall label, line <> py "[[IMG: " ++ label ++ py "]]")
  /\ img_match line = Some (py "fig1")
  /\ exists w h,
      process_line (fun q => q) (fun _ => true) 481 283
                   (fun _ => Some (640, 480)%Z)
                   [(py "fig1", record_1)] (idle []) line
      = OK (idle [KeepTogether
                    [Spacer (2 # 10); PDFImage (path record_1) w h;
                     Spacer (1 # 10);
                     Paragraph ([9650; 32]%N ++ py "chart") Caption;
                     Spacer (5 # 10)]]).
Proof.
  cbv zeta. split; [reflexivity|]. split; [|split; [reflexivity|]].
  - intros label E.
    apply (f_equal (fun l => last l 0%N)) in E.
    replace (py "[[IMG: " ++ label ++ py "]]")
      with ((py "[[IMG: " ++ label ++ [chr "]"]) ++ [chr "]"]) in E
      by (rewrite <- !app_assoc; reflexivity).
    rewrite last_last in E. vm_compute in E. discriminate.
  - do 2 eexists. vm_compute. reflexivity.
Qed.

Lemma C6_unknown_label_witness :
  let step := process_line (fun q => q) (fun _ => true) 481 283
                           (fun _ => Some (640, 480)%Z)
                           [([22259; 49]%N, record_1)] in
  step (idle (story_of 2)) (py "[[IMG: fig9]]") = OK (idle (story_of 2)).
Proof.
  cbv zeta.
  refine (proj1 (proj2 (proj2
    (@C6_unknown_label_is_skipped
       (fun q => q) (fun _ => true) 481 283 (fun _ => Some (640, 480)%Z)
       [([22259; 49]%N, record_1)]
       (idle (story_of 2)) (py "[[IMG: fig9]]") (py "fig9") _ _))) _);
    reflexivity.
Defined.

(** C6, as stated, fails: the label of [[[IMG: 図 1]]], trimmed, is [図 1]
    and is no key of the map, yet the unit of [図1] is added, because the
    key looked up has its spaces removed. *)
Lemma C6_counterexample_label_with_space :
  let line := py "[[IMG: " ++ [22259; 32; 49]%N ++ py "]]" in
  let image_data_dict := [([22259; 49]%N, record_1)] in
  img_match (strip line) = Some [22259; 32; 49]%N
  /\ strip [22259; 32; 49]%N = [22259; 32; 49]%N
  /\ dict_get (strip [22259; 32; 49]%N) image_data_dict = None
  /\ exists u,
      process_line (fun q => q) (fun _ => true) 481 283
                   (fun _ => Some (640, 480)%Z) image_data_dict (idle []) line
      = OK (idle [u]).
Proof.
  cbv zeta. repeat split; try reflexivity.
  eexists. vm_compute. reflexivity.
Qed.

(** ** Image scaling *)

Section ImageScaling.

Local Open Scope Q_scope.

(** The rounding of float arithmetic, in the standard model: it is
    monotone, the result of an operation is within a relative error [eps]
    of the exact one, and the two bounds are floats, which rounding leaves
    as they are. *)
Variable rnd : Q -> Q.
Variable available_width max_height : Q.
Variable eps : Q.
Hypothesis rnd_monotone : forall x y : Q, x <= y -> rnd x <= rnd y.
Hypothesis rnd_error : forall x : Q, Qabs (rnd x - x) <= eps * Qabs x.
Hypothesis eps_small : eps < 1.
Hypothesis rnd_width : rnd available_width == available_width.
Hypothesis rnd_height : rnd max_height == max_height.
Hypothesis width_pos : 0 < available_width.
Hypothesis height_pos : 0 < max_height.

Variable markup_ok : str -> bool.
Variable load_image : str -> option (Z * Z).

Lemma Qgtb_true (a b : Q) : b < a -> Qgtb a b = true.
Proof.
  intros H. unfold Qgtb. destruct (Qle_bool a b) eqn:E; [|reflexivity].
  apply Qle_bool_iff in E. exfalso. exact (Qlt_not_le _ _ H E).
Qed.

Lemma Qgtb_spec (a b : Q) : Qgtb a b = true <-> b < a.
Proof.
  split; [|apply Qgtb_true].
  unfold Qgtb. destruct (Qle_bool a b) eqn:E; [discriminate|]. intros _.
  apply Qnot_le_lt. intros H. apply Qle_bool_iff in H. congruence.
Qed.

(** A rounded value above the height bound was above it before rounding. *)
Lemma above_bound_before_rounding (x : Q) :
  max_height < rnd x -> max_height < x.
Proof.
  intros H. apply Qnot_le_lt. intros Hle.
  apply rnd_monotone in Hle. rewrite rnd_height in Hle.
  exact (Qlt_not_le _ _ H Hle).
Qed.

Lemma eps_nonneg : 0 <= eps.
Proof.
  pose proof (rnd_error 1) as H.
  pose proof (Qabs_nonneg (rnd 1 - 1)) as H0.
  change (Qabs 1) with 1 in H. lra.
Qed.

Lemma rnd_within (x : Q) :
  0 <= x -> (1 - eps) * x <= rnd x /\ rnd x <= (1 + eps) * x.
Proof.
  intros Hx. pose proof (rnd_error x) as H.
  rewrite (Qabs_pos x Hx) in H.
  apply Qabs_Qle_condition in H. destruct H as [H1 H2].
  split; lra.
Qed.

Lemma rnd_pos (x : Q) : 0 < x -> 0 < rnd x.
Proof.
  intros Hx. destruct (rnd_within (Qlt_le_weak _ _ Hx)) as [H _].
  apply Qlt_le_trans with ((1 - eps) * x); [|exact H].
  apply Qmult_lt_0_compat; lra.
Qed.

(** The rounded aspect ratio [a] of line 345, against the pixel sizes. *)
Lemma aspect_within (W H a : Q) :
  0 < W -> 0 < H -> a = rnd (H / W) ->
  0 < a /\ (1 - eps) * H <= a * W /\ a * W <= (1 + eps) * H.
Proof.
  intros HW HH ->.
  assert (Hr : 0 < H / W).
  { apply Qlt_shift_div_l; [exact HW | lra]. }
  destruct (rnd_within (Qlt_le_weak _ _ Hr)) as [H1 H2].
  assert (Er : H / W * W == H) by (field; lra).
  pose proof (Qmult_le_compat_r _ _ W H1 (Qlt_le_weak _ _ HW)) as X1.
  pose proof (Qmult_le_compat_r _ _ W H2 (Qlt_le_weak _ _ HW)) as X2.
  rewrite <- Qmult_assoc, Er in X1, X2.
  split; [now apply rnd_pos | split; assumption].
Qed.

(** The height [h] of line 349, computed from the bounded width. *)
Lemma ratio_when_width_bound (W H a h : Q) :
  0 < W -> 0 < H -> 0 < a ->
  (1 - eps) * H <= a * W -> a * W <= (1 + eps) * H ->
  h = rnd (available_width * a) ->
  0 < h
  /\ (1 - eps) ^ 2 * (available_width * H) <= h * W
  /\ (1 - eps) * (h * W) <= (1 + eps) * (available_width * H).
Proof.
  intros HW HH Ha Ha1 Ha2 ->.
  pose proof eps_nonneg as He.
  assert (Hp : 0 < available_width * a) by (apply Qmult_lt_0_compat; lra).
  destruct (rnd_within (Qlt_le_weak _ _ Hp)) as [Hh1 Hh2].
  split; [now apply rnd_pos|].
  set (h := rnd (available_width * a)) in *.
  split.
  - apply Qle_trans with ((1 - eps) * (available_width * a) * W).
    + setoid_replace ((1 - eps) ^ 2 * (available_width * H))
        with ((1 - eps) * available_width * ((1 - eps) * H)) by ring.
      setoid_replace ((1 - eps) * (available_width * a) * W)
        with ((1 - eps) * available_width * (a * W)) by ring.
      apply Qmult_le_l; [|exact Ha1].
      apply Qmult_lt_0_compat; lra.
    + apply Qmult_le_compat_r; lra.
  - apply Qle_trans with ((1 - eps) * ((1 + eps) * (available_width * a) * W)).
    + apply Qmult_le_l; [lra|]. apply Qmult_le_compat_r; lra.
    + apply Qle_trans
        with ((1 - eps) * (1 + eps) * available_width * ((1 + eps) * H)).
      * setoid_replace ((1 - eps) * ((1 + eps) * (available_width * a) * W))
          with ((1 - eps) * (1 + eps) * available_width * (a * W)) by ring.
        apply Qmult_le_l; [|exact Ha2].
        repeat apply Qmult_lt_0_compat; lra.
      * setoid_replace
          ((1 - eps) * (1 + eps) * available_width * ((1 + eps) * H))
          with ((1 - eps * eps) * ((1 + eps) * (available_width * H)))
          by ring.
        rewrite <- (Qmult_1_l ((1 + eps) * (available_width * H))) at 2.
        apply Qmult_le_compat_r.
        -- assert (0 <= eps * eps) by (apply Qmult_le_0_compat; lra). lra.
        -- apply Qmult_le_0_compat; [lra|].
           apply Qmult_le_0_compat; lra.
Qed.

(** The width [w] of line 352, recomputed from the bounded height. *)
Lemma ratio_when_height_bound (W H a w : Q) :
  0 < W -> 0 < H -> 0 < a ->
  (1 - eps) * H <= a * W -> a * W <= (1 + eps) * H ->
  w = rnd (max_height / a) ->
  0 < w
  /\ (1 - eps) ^ 2 * (w * H) <= max_height * W
  /\ (1 - eps) * (max_height * W) <= (1 + eps) * (w * H).
Proof.
  intros HW HH Ha Ha1 Ha2 ->.
  pose proof eps_nonneg as He.
  assert (Hp : 0 < max_height / a).
  { apply Qlt_shift_div_l; [exact Ha | lra]. }
  destruct (rnd_within (Qlt_le_weak _ _ Hp)) as [Hw1 Hw2].
  assert (Hw0 : 0 < rnd (max_height / a)) by now apply rnd_pos.
  set (w := rnd (max_height / a)) in *.
  assert (Er : max_height / a * a == max_height) by (field; lra).
  pose proof (Qmult_le_compat_r _ _ a Hw1 (Qlt_le_weak _ _ Ha)) as Hw1'.
  pose proof (Qmult_le_compat_r _ _ a Hw2 (Qlt_le_weak _ _ Ha)) as Hw2'.
  rewrite <- Qmult_assoc, Er in Hw1', Hw2'.
  split; [exact Hw0|]. split.
  - assert (S1 : (1 - eps) * (w * H) <= (1 + eps) * (max_height * W)).
    { apply Qle_trans with (w * a * W).
      - setoid_replace ((1 - eps) * (w * H)) with (w * ((1 - eps) * H))
          by ring.
        setoid_replace (w * a * W) with (w * (a * W)) by ring.
        apply Qmult_le_l; assumption.
      - setoid_replace ((1 + eps) * (max_height * W))
          with ((1 + eps) * max_height * W) by ring.
        apply Qmult_le_compat_r; lra. }
    apply Qle_trans with ((1 - eps) * ((1 + eps) * (max_height * W))).
    + setoid_replace ((1 - eps) ^ 2 * (w * H))
        with ((1 - eps) * ((1 - eps) * (w * H))) by ring.
      apply Qmult_le_l; [lra | exact S1].
    + setoid_replace ((1 - eps) * ((1 + eps) * (max_height * W)))
        with ((1 - eps * eps) * (max_height * W)) by ring.
      rewrite <- (Qmult_1_l (max_height * W)) at 2.
      apply Qmult_le_compat_r.
      * assert (0 <= eps * eps) by (apply Qmult_le_0_compat; lra). lra.
      * apply Qmult_le_0_compat; lra.
  - apply Qle_trans with (w * a * W).
    + setoid_replace ((1 - eps) * (max_height * W))
        with ((1 - eps) * max_height * W) by ring.
      apply Qmult_le_compat_r; lra.
    + setoid_replace ((1 + eps) * (w * H)) with (w * ((1 + eps) * H)) by ring.
      setoid_replace (w * a * W) with (w * (a * W)) by ring.
      apply Qmult_le_l; assumption.
Qed.

(** C7: an image wider than the available width, with positive pixel
    sizes, whose file loads and whose caption is accepted. The unit added
    to the story holds the image with a drawn width that is positive and
    at most the available width and a drawn height that is positive and at
    most the maximum height. The width is bounded first and the height
    re-checked on the result: the drawn sizes are the available width and
    its product by the rounded aspect ratio, or, when that product exceeds
    the maximum height, the maximum height and its quotient by the
    rounded aspect ratio. The aspect ratio is preserved to within
    rounding: drawn height over drawn width lies between [(1 - eps) ^ 2]
    and [(1 + eps) / (1 - eps)] times pixel height over pixel width, and
    is equal to it when the arithmetic is exact ([eps = 0]). *)
Theorem C7_scaled_image_fits
        (info : image_record) (imageWidth imageHeight : Z) :
  load_image (path info) = Some (imageWidth, imageHeight) ->
  markup_ok ([9650; 32]%N ++ caption info) = true ->
  (0 < imageWidth)%Z -> (0 < imageHeight)%Z ->
  available_width < inject_Z imageWidth ->
  let aspect := fdiv rnd (inject_Z imageHeight) (inject_Z imageWidth) in
  exists img_w img_h : Q,
    image_unit rnd markup_ok available_width max_height load_image info
    = [KeepTogether
         [Spacer (2 # 10); PDFImage (path info) img_w img_h; Spacer (1 # 10);
          Paragraph ([9650; 32]%N ++ caption info) Caption; Spacer (5 # 10)]]
    /\ scale_image rnd available_width max_height imageWidth imageHeight
       = Some (img_w, img_h)
    /\ (0 < img_w /\ img_w <= available_width)
    /\ (0 < img_h /\ img_h <= max_height)
    /\ bound_width rnd available_width aspect
                   (inject_Z imageWidth, inject_Z imageHeight)
       = (available_width, fmul rnd available_width aspect)
    /\ bound_height rnd max_height aspect
                    (available_width, fmul rnd available_width aspect)
       = Some (img_w, img_h)
    /\ ((img_w = available_width
         /\ img_h = fmul rnd available_width aspect)
        \/ (img_h = max_height
            /\ img_w = fdiv rnd max_height aspect
            /\ max_height < fmul rnd available_width aspect))
    /\ (1 - eps) ^ 2 * (img_w * inject_Z imageHeight)
       <= img_h * inject_Z imageWidth
    /\ (1 - eps) * (img_h * inject_Z imageWidth)
       <= (1 + eps) * (img_w * inject_Z imageHeight).
Proof.
  intros Hload Hcap Hw Hh Hwide aspect.
  assert (HW : 0 < inject_Z imageWidth).
  { now rewrite Zlt_Qlt in Hw. }
  assert (HH : 0 < inject_Z imageHeight).
  { now rewrite Zlt_Qlt in Hh. }
  destruct (aspect_within HW HH (a := aspect) eq_refl) as [Ha [Ha1 Ha2]].
  assert (Ebw : bound_width rnd available_width aspect
                            (inject_Z imageWidth, inject_Z imageHeight)
                = (available_width, fmul rnd available_width aspect)).
  { unfold bound_width. now rewrite (Qgtb_true Hwide). }
  assert (Hsc : forall img_w img_h,
             bound_height rnd max_height aspect
               (available_width, fmul rnd available_width aspect)
             = Some (img_w, img_h) ->
             scale_image rnd available_width max_height imageWidth imageHeight
             = Some (img_w, img_h)).
  { intros w h E. unfold scale_image.
    destruct (Z.eqb_spec imageWidth 0) as [E0|_]; [lia|].
    fold aspect. now rewrite Ebw. }
  assert (Hunit : forall img_w img_h,
             scale_image rnd available_width max_height imageWidth imageHeight
             = Some (img_w, img_h) ->
             image_unit rnd markup_ok available_width max_height load_image
                        info
             = [KeepTogether
                  [Spacer (2 # 10); PDFImage (path info) img_w img_h;
                   Spacer (1 # 10);
                   Paragraph ([9650; 32]%N ++ caption info) Caption;
                   Spacer (5 # 10)]]).
  { intros w h E. unfold image_unit, mkParagraph.
    now rewrite Hload, E, Hcap. }
  destruct (Qgtb (fmul rnd available_width aspect) max_height) eqn:Hg.
  - (* the height is re-bounded *)
    assert (Hz : Qeq_bool aspect 0 = false).
    { destruct (Qeq_bool aspect 0) eqn:E; [|reflexivity].
      apply Qeq_bool_iff in E. rewrite E in Ha.
      exfalso. exact (Qlt_irrefl _ Ha). }
    assert (Ebh : bound_height rnd max_height aspect
                    (available_width, fmul rnd available_width aspect)
                  = Some (fdiv rnd max_height aspect, max_height)).
    { unfold bound_height. now rewrite Hg, Hz. }
    apply Qgtb_spec in Hg. unfold fmul in Hg.
    pose proof (above_bound_before_rounding Hg) as Hreal.
    destruct (ratio_when_height_bound HW HH Ha Ha1 Ha2
                (w := fdiv rnd max_height aspect) eq_refl) as [Hw0 [R1 R2]].
    exists (fdiv rnd max_height aspect), max_height.
    split; [apply Hunit, Hsc, Ebh|]. split; [apply Hsc, Ebh|].
    split; [split; [exact Hw0|]|].
    { unfold fdiv. rewrite <- rnd_width. apply rnd_monotone.
      apply Qle_shift_div_r; [exact Ha | now apply Qlt_le_weak]. }
    split; [split; [exact height_pos | apply Qle_refl]|].
    split; [exact Ebw|]. split; [exact Ebh|].
    split; [right; auto|]. split; assumption.
  - (* the height already fits *)
    assert (Ebh : bound_height rnd max_height aspect
                    (available_width, fmul rnd available_width aspect)
                  = Some (available_width, fmul rnd available_width aspect)).
    { unfold bound_height. now rewrite Hg. }
    destruct (ratio_when_width_bound HW HH Ha Ha1 Ha2
                (h := fmul rnd available_width aspect) eq_refl)
      as [Hh0 [R1 R2]].
    exists available_width, (fmul rnd available_width aspect).
    split; [apply Hunit, Hsc, Ebh|]. split; [apply Hsc, Ebh|].
    split; [split; [exact width_pos | apply Qle_refl]|].
    split; [split; [exact Hh0|]|].
    { apply Qnot_lt_le. intros Hlt. apply Qgtb_true in Hlt. congruence. }
    split; [exact Ebw|]. split; [exact Ebh|].
    split; [left; auto|]. split; assumption.
Qed.

End ImageScaling.

(** *** Rounding to [p] significant bits *)

Section Pow2.

Local Open Scope Q_scope.

Lemma pow2_pos (z : Z) : 0 < pow2 z.
Proof. apply Qpower_0_lt. reflexivity. Qed.

Lemma pow2_add (a b : Z) : pow2 (a + b) == pow2 a * pow2 b.
Proof. apply Qpower_plus. discriminate. Qed.

Lemma pow2_le (a b : Z) : (a <= b)%Z -> pow2 a <= pow2 b.
Proof. intros H. apply Qpower_le_compat_l; [exact H | discriminate]. Qed.

Lemma pow2_lt_inv (a b : Z) : pow2 a < pow2 b -> (a < b)%Z.
Proof.
  intros H. apply (Qpower_lt_compat_l_inv 2); [exact H | reflexivity].
Qed.

Lemma pow2_inject (n : Z) : (0 <= n)%Z -> inject_Z (2 ^ n) == pow2 n.
Proof. intros H. apply (Zpower_Qpower 2 n H). Qed.

Lemma pow2_succ (a : Z) : pow2 (a + 1) == 2 * pow2 a.
Proof. rewrite pow2_add. change (pow2 1) with 2. ring. Qed.

Lemma log2_bounds (n : Z) :
  (0 < n)%Z ->
  pow2 (Z.log2 n) <= inject_Z n /\ inject_Z n < pow2 (Z.log2 n + 1).
Proof.
  intros Hn. destruct (Z.log2_spec n Hn) as [H1 H2].
  pose proof (Z.log2_nonneg n) as H0.
  split.
  - rewrite <- pow2_inject by exact H0. now rewrite <- Zle_Qle.
  - rewrite <- pow2_inject by lia. now rewrite <- Zlt_Qlt.
Qed.

(** [binade q] is the exponent of a positive [q]. *)
Lemma binade_spec (q : Q) :
  0 < q -> pow2 (binade q) <= q /\ q < pow2 (binade q + 1).
Proof.
  intros Hq. destruct q as [n d].
  assert (Hn : (0 < n)%Z).
  { unfold Qlt in Hq. simpl in Hq. lia. }
  destruct (log2_bounds Hn) as [N1 N2].
  destruct (@log2_bounds (Zpos d) eq_refl) as [D1 D2].
  assert (Eq : n # d == inject_Z n / inject_Z (Zpos d)) by apply Qmake_Qdiv.
  assert (Hd : 0 < inject_Z (Zpos d)) by reflexivity.
  unfold binade. cbn [Qnum Qden].
  set (a := Z.log2 n) in *. set (b := Z.log2 (Zpos d)) in *.
  pose proof (pow2_pos a) as Pa. pose proof (pow2_pos b) as Pb.
  assert (Up : n # d < pow2 (a - b + 1)).
  { rewrite Eq. apply Qlt_shift_div_r; [exact Hd|].
    apply Qlt_le_trans with (pow2 (a + 1)); [exact N2|].
    replace (a + 1)%Z with ((a - b + 1) + b)%Z by lia.
    rewrite pow2_add. apply Qmult_le_l; [apply pow2_pos | exact D1]. }
  assert (Low : pow2 (a - b - 1) < n # d).
  { rewrite Eq. apply Qlt_shift_div_l; [exact Hd|].
    apply Qlt_le_trans with (pow2 a); [|exact N1].
    apply Qlt_le_trans with (pow2 (a - b - 1) * pow2 (b + 1)).
    - apply Qmult_lt_l; [apply pow2_pos | exact D2].
    - rewrite <- pow2_add. replace (a - b - 1 + (b + 1))%Z with a by lia.
      apply Qle_refl. }
  destruct (Qle_bool (pow2 (a - b)) (n # d)) eqn:E.
  - apply Qle_bool_iff in E. split; assumption.
  - split; [now apply Qlt_le_weak|].
    replace (a - b - 1 + 1)%Z with (a - b)%Z by lia.
    apply Qnot_le_lt. intros H. apply Qle_bool_iff in H. congruence.
Qed.

End Pow2.

Section Nearest.

Local Open Scope Q_scope.

Variable p : Z.
Hypothesis p_pos : (1 <= p)%Z.

Lemma floor_half (t : Q) :
  t - (1 # 2) < inject_Z (Qfloor (t + (1 # 2)))
  /\ inject_Z (Qfloor (t + (1 # 2))) <= t + (1 # 2).
Proof.
  pose proof (Qfloor_le (t + (1 # 2))) as H1.
  pose proof (Qlt_floor (t + (1 # 2))) as H2.
  rewrite inject_Z_plus in H2. change (inject_Z 1) with 1 in H2.
  split; lra.
Qed.

Lemma scale_of_binade (q : Q) :
  pow2 (binade q) * pow2 (p - 1 - binade q) == inject_Z (2 ^ (p - 1))
  /\ pow2 (binade q + 1) * pow2 (p - 1 - binade q) == inject_Z (2 ^ p)
  /\ / pow2 (p - 1 - binade q) == 2 * (pow2 (- p) * pow2 (binade q)).
Proof.
  split; [|split].
  - rewrite pow2_inject by lia. rewrite <- pow2_add.
    now replace (binade q + (p - 1 - binade q))%Z with (p - 1)%Z by lia.
  - rewrite pow2_inject by lia. rewrite <- pow2_add.
    now replace (binade q + 1 + (p - 1 - binade q))%Z with p by lia.
  - unfold pow2 at 1. rewrite <- Qpower_opp.
    fold (pow2 (- (p - 1 - binade q))).
    rewrite <- pow2_add, <- pow2_succ.
    now replace (- (p - 1 - binade q))%Z with (- p + binade q + 1)%Z by lia.
Qed.

(** The relative error of a rounding is at most [2 ^ - p]. *)
Lemma nearest_pos_error (q : Q) :
  0 < q -> Qabs (nearest_pos p q - q) <= pow2 (- p) * q.
Proof.
  intros Hq. destruct (binade_spec Hq) as [B1 _].
  destruct (scale_of_binade q) as [_ [_ Es]].
  unfold nearest_pos. cbv zeta.
  pose proof (pow2_pos (p - 1 - binade q)) as Ps.
  pose proof (pow2_pos (- p)) as Pp.
  set (s := pow2 (p - 1 - binade q)) in *.
  destruct (floor_half (q * s)) as [F1 F2].
  set (k := inject_Z (Qfloor (q * s + (1 # 2)))) in *.
  apply Qle_trans with (pow2 (- p) * pow2 (binade q));
    [|apply Qmult_le_l; assumption].
  assert (Hi : 0 < / s) by now apply Qinv_lt_0_compat.
  apply Qabs_Qle_condition.
  assert (X : k / s - q == (k - q * s) * / s) by (field; lra).
  rewrite X.
  assert (Y : pow2 (- p) * pow2 (binade q) == (1 # 2) * / s).
  { rewrite Es. ring. }
  rewrite Y. split.
  - setoid_replace (- ((1 # 2) * / s)) with ((- (1 # 2)) * / s) by ring.
    apply Qmult_le_compat_r; lra.
  - apply Qmult_le_compat_r; lra.
Qed.

(** A rounded number stays between the powers of two around it. *)
Lemma nearest_pos_bounds (q : Q) :
  0 < q ->
  pow2 (binade q) <= nearest_pos p q
  /\ nearest_pos p q <= pow2 (binade q + 1).
Proof.
  intros Hq. destruct (binade_spec Hq) as [B1 B2].
  destruct (scale_of_binade q) as [E1 [E2 _]].
  unfold nearest_pos. cbv zeta.
  pose proof (pow2_pos (p - 1 - binade q)) as Ps.
  set (s := pow2 (p - 1 - binade q)) in *.
  split.
  - apply Qle_shift_div_l; [exact Ps|]. rewrite E1.
    rewrite <- Zle_Qle.
    rewrite <- (Qfloor_Z (2 ^ (p - 1))). apply Qfloor_resp_le.
    rewrite <- E1.
    apply Qle_trans with (q * s); [apply Qmult_le_compat_r; lra | lra].
  - apply Qle_shift_div_r; [exact Ps|]. rewrite E2.
    rewrite <- Zle_Qle. apply Z.lt_succ_r.
    rewrite Zlt_Qlt. unfold Z.succ. rewrite inject_Z_plus.
    change (inject_Z 1) with 1.
    destruct (floor_half (q * s)) as [_ F2].
    assert (q * s < inject_Z (2 ^ p)).
    { rewrite <- E2. apply Qmult_lt_compat_r; assumption. }
    lra.
Qed.

Lemma nearest_pos_positive (q : Q) : 0 < q -> 0 < nearest_pos p q.
Proof.
  intros Hq. destruct (nearest_pos_bounds Hq) as [H _].
  apply Qlt_le_trans with (pow2 (binade q)); [apply pow2_pos | exact H].
Qed.

Lemma nearest_pos_monotone (x y : Q) :
  0 < x -> x <= y -> nearest_pos p x <= nearest_pos p y.
Proof.
  intros Hx Hxy.
  assert (Hy : 0 < y) by lra.
  destruct (binade_spec Hx) as [X1 X2].
  destruct (binade_spec Hy) as [Y1 Y2].
  assert (Hle : (binade x <= binade y)%Z).
  { assert (H : pow2 (binade x) < pow2 (binade y + 1)) by lra.
    apply pow2_lt_inv in H. lia. }
  destruct (Z.eq_dec (binade x) (binade y)) as [E|Hne].
  - unfold nearest_pos. cbv zeta. rewrite E.
    pose proof (pow2_pos (p - 1 - binade y)) as Ps.
    set (s := pow2 (p - 1 - binade y)) in *.
    unfold Qdiv. apply Qmult_le_compat_r.
    + rewrite <- Zle_Qle. apply Qfloor_resp_le.
      assert (x * s <= y * s) by (apply Qmult_le_compat_r; lra). lra.
    + apply Qlt_le_weak. now apply Qinv_lt_0_compat.
  - destruct (nearest_pos_bounds Hx) as [_ U].
    destruct (nearest_pos_bounds Hy) as [L _].
    apply Qle_trans with (pow2 (binade x + 1)); [exact U|].
    apply Qle_trans with (pow2 (binade y)); [|exact L].
    apply pow2_le. lia.
Qed.

Lemma round_bits_monotone (x y : Q) :
  x <= y -> round_bits p x <= round_bits p y.
Proof.
  intros Hxy. unfold round_bits.
  destruct (Qcompare_spec x 0) as [Ex|Ex|Ex];
    destruct (Qcompare_spec y 0) as [Ey|Ey|Ey];
    try (exfalso; lra); try exact Hxy.
  - pose proof (nearest_pos_positive Ey). lra.
  - assert (H : 0 < - x) by lra.
    pose proof (nearest_pos_positive H). lra.
  - assert (H : 0 < - y) by lra.
    assert (H' : - y <= - x) by lra.
    pose proof (nearest_pos_monotone H H'). lra.
  - assert (H : 0 < - x) by lra.
    pose proof (nearest_pos_positive H).
    pose proof (nearest_pos_positive Ey). lra.
  - now apply nearest_pos_monotone.
Qed.

Lemma round_bits_error (x : Q) :
  Qabs (round_bits p x - x) <= pow2 (- p) * Qabs x.
Proof.
  unfold round_bits.
  destruct (Qcompare_spec x 0) as [Ex|Ex|Ex].
  - setoid_replace (x - x) with 0 by ring.
    apply Qmult_le_0_compat; [apply Qlt_le_weak, pow2_pos | apply Qabs_nonneg].
  - assert (H : 0 < - x) by lra.
    pose proof (nearest_pos_error H) as He.
    rewrite (Qabs_neg x) by lra.
    setoid_replace (- nearest_pos p (- x) - x)
      with (- (nearest_pos p (- x) - - x)) by ring.
    now rewrite Qabs_opp.
  - rewrite (Qabs_pos x) by lra. now apply nearest_pos_error.
Qed.

End Nearest.

(** The witness: a 1601 by 1200 image, the content width of an A4 page with
    2 cm margins and a 10 cm height bound, in points, under rounding to 53
    significant bits. The width is bounded to 481 first; the height, about
    360.5, then exceeds 283 and the image is drawn about 377.6 by 283. *)
Lemma C7_scaled_image_witness :
  exists img_w img_h : Q,
    image_unit (round_bits 53) (fun _ => true) 481 283
               (fun _ => Some (1601, 1200)%Z) record_1
    = [KeepTogether
         [Spacer (2 # 10); PDFImage (path record_1) img_w img_h;
          Spacer (1 # 10);
          Paragraph ([9650; 32]%N ++ caption record_1) Caption;
          Spacer (5 # 10)]]
    /\ (0 < img_w /\ img_w <= 481)%Q
    /\ (0 < img_h /\ img_h <= 283)%Q
    /\ ((1 - pow2 (-53)) ^ 2 * (img_w * 1200) <= img_h * 1601)%Q
    /\ ((1 - pow2 (-53)) * (img_h * 1601)
        <= (1 + pow2 (-53)) * (img_w * 1200))%Q.
Proof.
  assert (P : (1 <= 53)%Z) by discriminate.
  destruct (@C7_scaled_image_fits
              (round_bits 53) 481 283 (pow2 (-53))
              (round_bits_monotone P) (round_bits_error P)
              eq_refl eq_refl eq_refl eq_refl eq_refl
              (fun _ => true) (fun _ => Some (1601, 1200)%Z) record_1
              1601 1200 eq_refl eq_refl eq_refl eq_refl eq_refl)
    as [w [h [E [_ [Hw [Hh [_ [_ [_ [R1 R2]]]]]]]]]].
  exists w, h. repeat split; try assumption; tauto.
Defined.

Lemma round_1024_monotone (x y : Q) :
  (x <= y -> round_1024 x <= round_1024 y)%Q.
Proof.
  intros H. unfold round_1024, Qdiv.
  apply Qmult_le_compat_r; [|discriminate].
  rewrite <- Zle_Qle. apply Qfloor_resp_le.
  apply Qmult_le_compat_r; [exact H | discriminate].
Qed.

Example scaled_image_fits_under_rounding :
  exists img_w img_h : Q,
    scale_image round_1024 481 283 1601 1200 = Some (img_w, img_h)
    /\ (img_w <= 481)%Q /\ (img_h <= 283)%Q.
Proof.
  do 2 eexists. split; [vm_compute; reflexivity|].
  split; vm_compute; discriminate.
Qed.

(** Why the error of the rounding has to be bounded: rounding down to an
    integer is monotone and leaves 481 and 283 as they are, yet it takes
    the aspect ratio 3/4 of a 1600 by 1200 image to 0, and the image is
    drawn 481 wide and 0 high. *)
Example coarse_rounding_loses_the_ratio :
  scale_image (fun q => inject_Z (Qfloor q)) 481 283 1600 1200
  = Some (481%Q, 0%Q).
Proof. vm_compute. reflexivity. Qed.

(** Under rounding to 53 bits the 1601 by 1200 image is drawn 283 high and
    [0x1.7991b4e81b4e8p+8] wide, the float that [283 / (1200 / 1601)] is
    in Python; height over width is then close to 1200 / 1601 and not
    equal to it. *)
Example scaled_image_under_53_bits :
  exists img_w : Q,
    scale_image (round_bits 53) 481 283 1601 1200 = Some (img_w, 283%Q)
    /\ (img_w == inject_Z 0x17991b4e81b4e8 / pow2 44)%Q
    /\ ~ (283 * 1601 == img_w * 1200)%Q.
Proof.
  eexists. split; [vm_compute; reflexivity|].
  split; [vm_compute; reflexivity|].
  vm_compute. intros H. discriminate H.
Qed.

(** ** A table that cannot be rendered *)

(** C8: the code at a table with a cell the paragraph parser rejects. The
    exception of [create_paragraph_table] leaves the line loop and
    [save_to_pdf]: no story is built and nothing after the table is laid
    out. An image that cannot be loaded, in contrast, is skipped. *)
Theorem C8_table_error_leaves_save_to_pdf :
  create_paragraph_table (fun q => q) rejects_unclosed_bold 481
                         [py "| item | <b>total |"; py "| a | 1 |"]
  = Raise (ParagraphMarkupError (py "<b>total"))
  /\ process_line (fun q => q) rejects_unclosed_bold 481 283 (fun _ => None) []
                  {| story := story_of 4;
                     table_buffer := [py "| item | <b>total |"; py "| a | 1 |"];
                     in_table := true |}
                  (py "Closing remark")
     = Raise (ParagraphMarkupError (py "<b>total"))
  /\ build_story (fun q => q) rejects_unclosed_bold 481 283 (fun _ => None)
                 (fun name => name) report_with_bad_table [] (py "report")
     = Raise (ParagraphMarkupError (py "<b>total"))
  /\ save_to_pdf (fun q => q) rejects_unclosed_bold 481 283 (fun _ => None)
                 (fun name => name) (fun _ => true)
                 report_with_bad_table [] (py "report")
     = Raise (ParagraphMarkupError (py "<b>total"))
  /\ image_unit (fun q => q) rejects_unclosed_bold 481 283 (fun _ => None)
                record_1 = [].
Proof. repeat split; vm_compute; reflexivity. Qed.

(** ** The driver *)

Section DriverFacts.

Variable rnd : Q -> Q.
Variable markup_ok : str -> bool.
Variable available_width max_height : Q.
Variable load_image : str -> option (Z * Z).
Variable path_stem : str -> str.
Variable build_ok : list flowable -> bool.
Variable llm_caption : nat -> list Byte.byte -> option str.
Variable open_pdf : str -> option document.
Variable llm_summary : str -> str -> option str.

Abbreviation story_for :=
  (build_story rnd markup_ok available_width max_height load_image path_stem).
Abbreviation save :=
  (save_to_pdf rnd markup_ok available_width max_height load_image path_stem
               build_ok).
Abbreviation saved :=
  (save_result rnd markup_ok available_width max_height load_image path_stem
               build_ok llm_caption open_pdf llm_summary).
Abbreviation process :=
  (process_file rnd markup_ok available_width max_height load_image path_stem
                build_ok llm_caption open_pdf llm_summary).

(** [save_to_pdf] answers [True] only for a story that was built and
    serialized. *)
Lemma save_to_pdf_true (markdown : str) (images : image_dict) (name : str) :
  save markdown images name = OK true ->
  exists story, story_for markdown images name = OK story
                /\ build_ok story = true.
Proof.
  unfold save_to_pdf.
  destruct (story_for markdown images name) as [story|e]; simpl; [|discriminate].
  intros H. injection H as H. now exists story.
Qed.

Lemma process_file_cases (d : dirs) (pdf_file : str) :
  (saved pdf_file = OK true
   /\ process d pdf_file = move_to_processed d pdf_file)
  \/ (saved pdf_file <> OK true /\ process d pdf_file = d).
Proof.
  unfold process_file.
  destruct (saved pdf_file) as [[|]|e]; [left | right | right];
    split; congruence.
Qed.

(** C9: when the story is built and its serialization fails, [save_to_pdf]
    answers [False]; [main] then leaves the source where it is, in the
    input directory and out of the processed one, so that a later run
    finds it again; the source is moved only when [save_to_pdf] answers
    [True], which it does only for a story whose serialization
    succeeded. *)
Theorem C9_source_moved_only_on_build_success (d : dirs) (pdf_file : str) :
  (forall markdown images story,
      story_for markdown images pdf_file = OK story ->
      save markdown images pdf_file = OK (build_ok story))
  /\ (forall doc text img_list images files summary story,
         open_pdf pdf_file = Some doc ->
         extract_content_from_pdf llm_caption doc
         = (text, img_list, images, files) ->
         llm_summary text img_list = Some summary ->
         story_for summary images pdf_file = OK story ->
         build_ok story = false ->
         saved pdf_file = OK false
         /\ process d pdf_file = d
         /\ (In pdf_file (input_dir d) ->
             In pdf_file (input_dir (process d pdf_file))))
  /\ (saved pdf_file <> OK true -> process d pdf_file = d)
  /\ (saved pdf_file = OK true ->
      process d pdf_file = move_to_processed d pdf_file
      /\ In pdf_file (processed_dir (process d pdf_file))
      /\ ~ In pdf_file (input_dir (process d pdf_file)))
  /\ (process d pdf_file <> d ->
      exists doc text img_list images files summary story,
        open_pdf pdf_file = Some doc
        /\ extract_content_from_pdf llm_caption doc
           = (text, img_list, images, files)
        /\ llm_summary text img_list = Some summary
        /\ story_for summary images pdf_file = OK story
        /\ build_ok story = true).
Proof.
  assert (Hfail : forall doc text img_list images files summary story,
             open_pdf pdf_file = Some doc ->
             extract_content_from_pdf llm_caption doc
             = (text, img_list, images, files) ->
             llm_summary text img_list = Some summary ->
             story_for summary images pdf_file = OK story ->
             saved pdf_file = OK (build_ok story)).
  { intros doc text img_list images files summary story Ho He Hs Hb.
    unfold save_result. rewrite Ho, He. unfold generate_summary.
    rewrite Hs. simpl. unfold save_to_pdf. now rewrite Hb. }
  split; [|split; [|split; [|split]]].
  - intros markdown images story Hb. unfold save_to_pdf. now rewrite Hb.
  - intros doc text img_list images files summary story Ho He Hs Hb Hbad.
    pose proof (Hfail _ _ _ _ _ _ _ Ho He Hs Hb) as Hsaved.
    rewrite Hbad in Hsaved.
    assert (Hd : process d pdf_file = d)
      by (unfold process_file; now rewrite Hsaved).
    split; [exact Hsaved|]. split; [exact Hd|]. now rewrite Hd.
  - intros Hne. destruct (process_file_cases d pdf_file) as [[H _]|[_ H]];
      [contradiction | exact H].
  - intros Hs. destruct (process_file_cases d pdf_file) as [[_ H]|[H _]];
      [|contradiction].
    split; [exact H|]. rewrite H. unfold move_to_processed. simpl.
    split; [now left|].
    unfold remove_name. rewrite filter_In. intros [_ Hn].
    assert (E : str_eqb pdf_file pdf_file = true) by now apply str_eqb_eq.
    rewrite E in Hn. discriminate.
  - intros Hmoved.
    destruct (process_file_cases d pdf_file) as [[Hs _]|[_ H]];
      [|contradiction].
    unfold save_result in Hs.
    destruct (open_pdf pdf_file) as [doc|] eqn:Ho; [|discriminate].
    destruct (extract_content_from_pdf llm_caption doc)
      as [[[text img_list] images] files] eqn:He.
    unfold generate_summary in Hs.
    destruct (llm_summary text img_list) as [summary|] eqn:Hsum;
      [|discriminate].
    simpl in Hs. apply save_to_pdf_true in Hs. destruct Hs as [story [Hb Hok]].
    exists doc, text, img_list, images, files, summary, story. auto.
Qed.

End DriverFacts.

Example driver_keeps_source_on_failure :
  let d := {| input_dir := [py "notes.txt"; py "a.pdf"];
              processed_dir := [] |} in
  run (fun _ => false) d = d
  /\ run (fun _ => true) d
     = {| input_dir := [py "notes.txt"]; processed_dir := [py "a.pdf"] |}.
Proof. split; vm_compute; reflexivity. Qed.

(** ** Extraction *)

Section ExtractionFacts.

Variable llm_caption : nat -> list Byte.byte -> option str.

Lemma dict_set_Forall (P : str * image_record -> Prop) k v (d : image_dict) :
  P (k, v) -> Forall P d -> Forall P (dict_set k v d).
Proof.
  intros Hkv. induction 1 as [|[k' v'] d Hh Ht IH]; simpl.
  - now repeat constructor.
  - destruct (str_eqb k k'); constructor; assumption.
Qed.

Lemma extract_image_large (st : extract_state) img :
  large_files st -> large_files (extract_image llm_caption st img).
Proof.
  intros [Hf Hd]. unfold extract_image.
  destruct img as [[image_bytes ext]|]; [|now split].
  destruct (Nat.ltb_spec (length image_bytes) 5000) as [|Hlen]; [now split|].
  assert (Hd' : forall p,
             Forall (fun kv => In (path (snd kv))
                                  (List.map fst ((p, image_bytes) :: temp_files st)))
                    (image_data st)).
  { intros p. eapply Forall_impl; [|exact Hd]. intros kv H. now right. }
  destruct (llm_caption (img_count st + 1) image_bytes); split; simpl.
  - constructor; [exact Hlen | exact Hf].
  - apply dict_set_Forall; [now left | apply Hd'].
  - constructor; [exact Hlen | exact Hf].
  - apply Hd'.
Qed.

Lemma extract_pages_cons (st : extract_state) (pg : page) (pages : list page) :
  extract_pages llm_caption st (pg :: pages) =
  if MAX_IMAGES <=? img_count st then st
  else extract_pages llm_caption
         (fold_left (extract_image llm_caption) (page_images pg) st) pages.
Proof. reflexivity. Qed.

Lemma extract_pages_large (pages : list page) :
  forall st, large_files st -> large_files (extract_pages llm_caption st pages).
Proof.
  induction pages as [|pg pages IH]; intros st H; [exact H|].
  rewrite extract_pages_cons.
  destruct (MAX_IMAGES <=? img_count st); [exact H|].
  apply IH. generalize dependent st.
  induction (page_images pg) as [|img imgs IHi]; intros st H; [exact H|].
  apply IHi, extract_image_large, H.
Qed.

Lemma read_file_large (p : str) (files : list (str * list Byte.byte)) :
  Forall (fun f => 5000 <= length (snd f)) files ->
  In p (List.map fst files) ->
  exists bytes, read_file p files = Some bytes /\ 5000 <= length bytes.
Proof.
  induction 1 as [|[q b] files Hb _ IH]; simpl; [contradiction|].
  intros Hin. destruct (str_eqb p q) eqn:E; [now exists b|].
  destruct Hin as [->|Hin]; [|now apply IH].
  assert (str_eqb p p = true) by now apply str_eqb_eq. congruence.
Qed.

(** The part of the extraction contract that holds: the image behind each
    returned record has at least 5000 bytes. *)
Lemma accepted_images_are_large (doc : document) :
  forall text img_list images files,
    extract_content_from_pdf llm_caption doc = (text, img_list, images, files) ->
    Forall (fun kv => exists bytes,
                read_file (path (snd kv)) files = Some bytes
                /\ 5000 <= length bytes) images.
Proof.
  intros text img_list images files E. unfold extract_content_from_pdf in E.
  injection E as _ _ <- <-.
  destruct (@extract_pages_large doc
              {| img_count := 0; image_data := []; temp_files := [] |})
    as [Hf Hd]; [split; constructor|].
  eapply Forall_impl; [|exact Hd].
  intros kv Hin. now apply read_file_large.
Qed.

End ExtractionFacts.

(** C4: the code at a document whose single page embeds 51 images of 5000
    bytes, each captioned: all 51 are returned, one more than the cap,
    because the cap is tested before a page and not before an image. *)
Theorem C4_cap_exceeded_within_a_page :
  let '(_, _, images, _) :=
    extract_content_from_pdf (fun _ _ => Some (py "figure")) crowded_page in
  length images = 51
  /\ MAX_IMAGES < length images
  /\ dict_get (label_of 51) images
     = Some {| path := py "data/temp_images/img_51.png";
               caption := py "figure";
               label := label_of 51 |}.
Proof. vm_compute. repeat split; reflexivity. Qed.

(** * Further properties *)

(** ** Parsing table lines *)

Lemma dropwhile_head (p : char -> bool) (s : str) (c : char) (r : str) :
  dropwhile p s = c :: r -> p c = false.
Proof.
  induction s as [|x s IH]; simpl; [discriminate|].
  destruct (p x) eqn:Hx; [exact IH|]. intros E. injection E as <- _. exact Hx.
Qed.

Lemma dropwhile_fixed (p : char -> bool) (s : str) :
  (forall c r, s = c :: r -> p c = false) -> dropwhile p s = s.
Proof.
  destruct s as [|c r]; [reflexivity|]. intros H. simpl.
  now rewrite (H c r eq_refl).
Qed.

(** Stripping twice is stripping once. *)
Lemma strip_by_idempotent (p : char -> bool) (s : str) :
  strip_by p (strip_by p s) = strip_by p s.
Proof.
  unfold strip_by, rstrip_by, lstrip_by.
  set (a := dropwhile p s).
  set (b := dropwhile p (rev a)).
  destruct (dropwhile_split p (rev a)) as [ws [E _]]. fold b in E.
  assert (Ea : a = rev b ++ rev ws).
  { rewrite <- (rev_involutive a), E, rev_app_distr. reflexivity. }
  assert (H1 : dropwhile p (rev b) = rev b).
  { apply dropwhile_fixed. intros c r Hc.
    apply (@dropwhile_head p s c (r ++ rev ws)).
    fold a. rewrite Ea, Hc. reflexivity. }
  rewrite H1, rev_involutive.
  f_equal. apply dropwhile_fixed. intros c r Hc.
  now apply (@dropwhile_head p (rev a) c r).
Qed.

Lemma parse_row_not_nil (line : str) : parse_row line <> [].
Proof.
  unfold parse_row. intros E. apply map_eq_nil in E.
  now apply split_not_nil in E.
Qed.

Lemma parse_markdown_table_map (markdown_lines : list str) :
  parse_markdown_table markdown_lines = List.map parse_row markdown_lines.
Proof.
  unfold parse_markdown_table.
  induction markdown_lines as [|line lines IH]; [reflexivity|].
  simpl. destruct (parse_row line) as [|cell row] eqn:E.
  - now apply parse_row_not_nil in E.
  - simpl. f_equal. exact IH.
Qed.

(** X1: [parse_markdown_table] gives one row per line, in order, and never
    an empty row; no cell holds a pipe, and every cell is trimmed. *)
Theorem parse_markdown_table_rows :
  forall markdown_lines : list str,
    parse_markdown_table markdown_lines = List.map parse_row markdown_lines
    /\ length (parse_markdown_table markdown_lines) = length markdown_lines
    /\ Forall (fun row =>
                 row <> []
                 /\ Forall (fun cell => ~ In (chr "|") cell
                                        /\ strip cell = cell) row)
              (parse_markdown_table markdown_lines).
Proof.
  intros lines. rewrite parse_markdown_table_map.
  split; [reflexivity|]. split; [apply length_map|].
  rewrite Forall_map. apply Forall_forall. intros line _.
  split; [apply parse_row_not_nil|].
  unfold parse_row. rewrite Forall_map.
  assert (H : Forall (fun _ : char => True) (strip_char (chr "|") line))
    by (apply Forall_forall; trivial).
  apply (split_pieces (chr "|")) in H.
  eapply Forall_impl; [|exact H].
  intros piece Hp. split; [|apply strip_by_idempotent].
  intros Hin. apply (Forall_strip_by is_space) in Hp.
  rewrite Forall_forall in Hp. now destruct (Hp _ Hin).
Qed.

Lemma separator_line_row (line : str) :
  separator_line line -> is_separator_row (parse_row line) = true.
Proof.
  intros H. unfold is_separator_row. apply andb_true_iff. split.
  { destruct (parse_row line) as [|cell row] eqn:E;
      [now apply parse_row_not_nil in E | reflexivity]. }
  unfold parse_row, separator_chars.
  apply forallb_forall. intros c Hc.
  apply in_concat in Hc. destruct Hc as [cell' [Hcell Hc]].
  apply in_map_iff in Hcell. destruct Hcell as [piece [<- Hpiece]].
  apply (Forall_strip_by (N.eqb (chr "|"))) in H.
  apply (split_pieces (chr "|")) in H.
  rewrite Forall_forall in H. specialize (H _ Hpiece).
  apply (Forall_strip_by is_space) in H.
  rewrite Forall_forall in H. destruct (H _ Hc) as [[-> | [-> | [-> | ->]]] Hne];
    [contradiction | reflexivity | reflexivity | reflexivity].
Qed.

(** X2: a buffer whose lines are written only with pipes, dashes, colons
    and spaces keeps no row, and no table is built from it. *)
Theorem separator_lines_give_no_table (raw_data_lines : list str) :
  Forall separator_line raw_data_lines ->
  clean_data_of raw_data_lines = []
  /\ forall rnd markup_ok available_width,
      create_paragraph_table rnd markup_ok available_width raw_data_lines
      = OK None.
Proof.
  intros H.
  assert (E : clean_data_of raw_data_lines = []).
  { unfold clean_data_of, clean_rows. rewrite parse_markdown_table_map.
    induction H as [|line raw Hl _ IH]; [reflexivity|].
    simpl. rewrite (separator_line_row Hl). exact IH. }
  split; [exact E|]. intros rnd markup_ok aw.
  rewrite create_paragraph_table_spec, E. reflexivity.
Qed.

Lemma separator_line_check (line : str) :
  forallb (fun c => (c =? chr "|") || (c =? chr "-") || (c =? chr ":")
                    || (c =? chr " "))%N line = true ->
  separator_line line.
Proof.
  intros H. rewrite forallb_forall in H. apply Forall_forall. intros c Hc.
  specialize (H c Hc). rewrite !orb_true_iff, !N.eqb_eq in H. tauto.
Qed.

Lemma separator_lines_witness :
  clean_data_of [py "|---|:-:|"; py "| - | -- |"] = []
  /\ forall rnd markup_ok available_width,
      create_paragraph_table rnd markup_ok available_width
                             [py "|---|:-:|"; py "| - | -- |"] = OK None.
Proof.
  apply separator_lines_give_no_table.
  constructor; [now apply separator_line_check|].
  constructor; [now apply separator_line_check | constructor].
Defined.

Lemma In_dropwhile (p : char -> bool) (c : char) (s : str) :
  In c s -> p c = false -> In c (dropwhile p s).
Proof.
  intros Hin Hc. induction s as [|x s IH]; [contradiction|].
  simpl. destruct (p x) eqn:Hx; [|exact Hin].
  destruct Hin as [->|Hin]; [congruence | now apply IH].
Qed.

Lemma In_strip_by (p : char -> bool) (c : char) (s : str) :
  In c s -> p c = false -> In c (strip_by p s).
Proof.
  intros Hin Hc. unfold strip_by, rstrip_by, lstrip_by.
  apply in_rev. rewrite rev_involutive.
  apply In_dropwhile; [|exact Hc].
  apply in_rev. rewrite rev_involutive. now apply In_dropwhile.
Qed.

Lemma In_split (sep c : char) (s : str) :
  In c s -> c <> sep -> exists piece, In piece (split sep s) /\ In c piece.
Proof.
  intros Hin Hc. induction s as [|x s IH]; [contradiction|].
  simpl. destruct (N.eqb_spec x sep) as [->|Hx].
  - destruct Hin as [->|Hin]; [congruence|].
    destruct (IH Hin) as [piece [Hp Hcp]]. exists piece. split; [now right | exact Hcp].
  - destruct (split sep s) as [|piece pieces] eqn:E.
    + exists [x]. split; [now left|].
      destruct Hin as [->|Hin]; [now left|].
      destruct (IH Hin) as [? [[] _]].
    + destruct Hin as [->|Hin].
      * exists (c :: piece). split; now left.
      * destruct (IH Hin) as [piece' [[<-|Hp] Hcp]].
        -- exists (x :: piece). split; [now left | now right].
        -- exists piece'. split; [now right | exact Hcp].
Qed.

Lemma visible_row_kept (line : str) (c : char) :
  In c line -> is_space c = false ->
  c <> chr "|" -> c <> chr "-" -> c <> chr ":" ->
  is_separator_row (parse_row line) = false.
Proof.
  intros Hin Hsp Hpipe Hdash Hcolon.
  unfold is_separator_row. apply andb_false_iff. right.
  destruct (separator_chars (concat (parse_row line))) eqn:E; [|reflexivity].
  exfalso. unfold separator_chars in E. rewrite forallb_forall in E.
  assert (Hc : In c (concat (parse_row line))).
  { unfold parse_row.
    assert (H1 : In c (strip_char (chr "|") line)).
    { apply In_strip_by; [exact Hin|]. now apply N.eqb_neq, not_eq_sym. }
    destruct (In_split (sep := chr "|") _ H1 Hpipe) as [piece [Hp Hcp]].
    apply in_concat. exists (strip piece). split.
    - apply in_map_iff. now exists piece.
    - now apply In_strip_by. }
  specialize (E c Hc).
  apply orb_true_iff in E. destruct E as [E|E].
  - apply orb_true_iff in E. destruct E as [E|E]; apply N.eqb_eq in E; congruence.
  - apply N.eqb_eq in E. subst c. discriminate.
Qed.

(** X3: a buffered line that holds a visible character other than a pipe, a
    dash or a colon is never dropped as a separator: its row is among the
    rows of the table. *)
Theorem data_lines_are_kept (raw_data_lines : list str) (line : str) (c : char) :
  In line raw_data_lines ->
  In c line -> is_space c = false ->
  c <> chr "|" -> c <> chr "-" -> c <> chr ":" ->
  In (parse_row line) (clean_data_of raw_data_lines)
  /\ clean_data_of raw_data_lines <> [].
Proof.
  intros Hl Hin Hsp Hpipe Hdash Hcolon.
  assert (H : In (parse_row line) (clean_data_of raw_data_lines)).
  { unfold clean_data_of, clean_rows. rewrite parse_markdown_table_map.
    apply filter_In. split; [now apply in_map|].
    now rewrite (visible_row_kept line Hin Hsp Hpipe Hdash Hcolon). }
  split; [exact H|]. intros E. rewrite E in H. contradiction.
Qed.

Lemma data_lines_witness :
  In (parse_row (py "| - | 3 |"))
     (clean_data_of [py "|---|---|"; py "| - | 3 |"])
  /\ clean_data_of [py "|---|---|"; py "| - | 3 |"] <> [].
Proof.
  apply (@data_lines_are_kept [py "|---|---|"; py "| - | 3 |"]
           (py "| - | 3 |") (chr "3")).
  - right. now left.
  - vm_compute. tauto.
  - reflexivity.
  - discriminate.
  - discriminate.
  - discriminate.
Defined.

(** ** Building a table *)

Section TableBuilding.

Variable rnd : Q -> Q.
Variable markup_ok : str -> bool.
Variable available_width : Q.

Abbreviation create :=
  (create_paragraph_table rnd markup_ok available_width).

Lemma convert_row_styled (i : nat) (row : list str) (converted : list flowable) :
  convert_row markup_ok i row = OK converted ->
  converted = styled (if i =? 0 then TableCellC else TableCellL) row
  /\ Forall (fun cell => markup_ok (format_inline_bold cell) = true) row.
Proof.
  unfold convert_row, styled. revert converted.
  induction row as [|cell row IH]; simpl; intros converted H.
  - injection H as <-. now split.
  - unfold mkParagraph in H at 1.
    destruct (markup_ok (format_inline_bold cell)) eqn:Hc; simpl in H;
      [|discriminate].
    destruct (mapM _ row) as [bs|e]; simpl in H; [|discriminate].
    injection H as <-. destruct (IH bs eq_refl) as [-> Hrow].
    split; [reflexivity | now constructor].
Qed.

Lemma convert_row_raises (i : nat) (row : list str) (e : exn) :
  convert_row markup_ok i row = Raise e ->
  exists cell, In cell row
               /\ markup_ok (format_inline_bold cell) = false
               /\ e = ParagraphMarkupError (format_inline_bold cell).
Proof.
  unfold convert_row.
  induction row as [|cell row IH]; simpl; [discriminate|].
  unfold mkParagraph at 1.
  destruct (markup_ok (format_inline_bold cell)) eqn:Hc; simpl.
  - destruct (mapM _ row) as [bs|e'] eqn:Hm; simpl; [discriminate|].
    intros H. injection H as ->.
    destruct (IH eq_refl) as [c [Hin H]]. exists c. split; [now right | exact H].
  - intros H. injection H as <-. exists cell. split; [now left | now split].
Qed.

Lemma convert_rows_body (rows : list (list str)) :
  forall i table_data,
    convert_rows markup_ok (S i) rows = OK table_data ->
    table_data = List.map (styled TableCellL) rows
    /\ cells_ok markup_ok rows.
Proof.
  induction rows as [|row rows IH]; simpl; intros i table_data H.
  - injection H as <-. split; [reflexivity | constructor].
  - destruct (convert_row markup_ok (S i) row) as [c|e] eqn:Hc; simpl in H;
      [|discriminate].
    destruct (convert_rows markup_ok (S (S i)) rows) as [d|e] eqn:Hd;
      simpl in H; [|discriminate].
    injection H as <-.
    destruct (convert_row_styled _ _ Hc) as [-> Hrow].
    destruct (IH _ _ Hd) as [-> Hrows].
    split; [reflexivity | now constructor].
Qed.

Lemma convert_rows_raises (rows : list (list str)) :
  forall i e,
    convert_rows markup_ok i rows = Raise e ->
    exists row cell, In row rows /\ In cell row
                     /\ markup_ok (format_inline_bold cell) = false
                     /\ e = ParagraphMarkupError (format_inline_bold cell).
Proof.
  induction rows as [|row rows IH]; simpl; intros i e H; [discriminate|].
  destruct (convert_row markup_ok i row) as [c|e'] eqn:Hc; simpl in H.
  - destruct (convert_rows markup_ok (S i) rows) as [d|e''] eqn:Hd;
      simpl in H; [discriminate|].
    injection H as ->. destruct (IH _ _ Hd) as [r [cell [Hr H]]].
    exists r, cell. split; [now right | exact H].
  - injection H as ->. destruct (convert_row_raises _ _ Hc) as [cell [Hin H]].
    exists row, cell. split; [now left | now split].
Qed.

(** X4: when rows remain, [create_paragraph_table] returns a table exactly
    when ReportLab accepts every formatted cell of the padded rows; it
    never returns [None] then, and the exception it raises otherwise is
    the one of a rejected cell of the table. *)
Theorem table_built_iff_cells_accepted (raw_data_lines : list str) :
  clean_data_of raw_data_lines <> [] ->
  ((exists t, create raw_data_lines = OK (Some t))
   <-> cells_ok markup_ok (normalized_data_of raw_data_lines))
  /\ create raw_data_lines <> OK None
  /\ forall e,
      create raw_data_lines = Raise e ->
      exists row cell,
        In row (normalized_data_of raw_data_lines) /\ In cell row
        /\ markup_ok (format_inline_bold cell) = false
        /\ e = ParagraphMarkupError (format_inline_bold cell).
Proof.
  intros Hne. rewrite create_paragraph_table_spec.
  destruct (clean_data_of raw_data_lines) as [|r rs] eqn:E; [congruence|].
  split; [split|split].
  - intros [t Ht].
    destruct (convert_rows markup_ok 0 (normalized_data_of raw_data_lines))
      as [d|e] eqn:Hd; [|discriminate].
    remember (normalized_data_of raw_data_lines) as rows eqn:Er.
    destruct rows as [|row rows]; [constructor|].
    simpl in Hd.
    destruct (convert_row markup_ok 0 row) as [c|e] eqn:Hc; simpl in Hd;
      [|discriminate].
    destruct (convert_rows markup_ok 1 rows) as [d'|e] eqn:Hd'; simpl in Hd;
      [|discriminate].
    constructor.
    + now destruct (convert_row_styled _ _ Hc).
    + now destruct (convert_rows_body _ _ Hd').
  - intros Hok. destruct (convert_rows_total Hok 0) as [d ->]. simpl.
    now eexists.
  - destruct (convert_rows markup_ok 0 _); simpl; discriminate.
  - intros e He.
    destruct (convert_rows markup_ok 0 (normalized_data_of raw_data_lines))
      as [d|e'] eqn:Hd; simpl in He; [discriminate|].
    injection He as ->. now apply (convert_rows_raises _ _ Hd).
Qed.

(** X5: the table returned has [repeatRows] 1; the cells of its first row
    are paragraphs in the centred header style and the cells of every
    other row paragraphs in the left-aligned style, each holding the
    formatted text of its cell. *)
Theorem header_row_is_styled_apart (raw_data_lines : list str) (t : flowable) :
  create raw_data_lines = OK (Some t) ->
  exists header body widths,
    normalized_data_of raw_data_lines = header :: body
    /\ table_of t
       = Some (Table (styled TableCellC header
                      :: List.map (styled TableCellL) body) widths 1).
Proof.
  rewrite create_paragraph_table_spec.
  destruct (clean_data_of raw_data_lines) as [|r rs] eqn:E; [discriminate|].
  assert (Hn : normalized_data_of raw_data_lines <> []).
  { unfold normalized_data_of, normalize_rows. rewrite E. discriminate. }
  destruct (normalized_data_of raw_data_lines) as [|header body];
    [congruence|].
  simpl convert_rows.
  destruct (convert_row markup_ok 0 header) as [c|e] eqn:Hc; simpl;
    [|discriminate].
  destruct (convert_rows markup_ok 1 body) as [d|e] eqn:Hd; simpl;
    [|discriminate].
  intros H. injection H as <-.
  destruct (convert_row_styled _ _ Hc) as [-> _].
  destruct (convert_rows_body _ _ Hd) as [-> _].
  exists header, body. eexists. split; [reflexivity|].
  destruct (_ <? 30); reflexivity.
Qed.

Lemma max_cols_positive (raw_data_lines : list str) :
  clean_data_of raw_data_lines <> [] ->
  1 <= max_cols_of (clean_data_of raw_data_lines).
Proof.
  intros Hne.
  destruct (max_cols_attained Hne) as [row [Hin Hlen]].
  rewrite <- Hlen.
  unfold clean_data_of, clean_rows in Hin. apply filter_In in Hin.
  destruct Hin as [Hin _]. rewrite parse_markdown_table_map in Hin.
  apply in_map_iff in Hin. destruct Hin as [line [<- _]].
  pose proof (parse_row_not_nil line) as Hrow.
  destruct (parse_row line); [congruence | simpl; lia].
Qed.

Lemma Qsum_repeat (x : Q) (n : nat) :
  (Qsum (repeat x n) == inject_Z (Z.of_nat n) * x)%Q.
Proof.
  induction n as [|n IH].
  - simpl. ring.
  - change (Qsum (repeat x (S n))) with (x + Qsum (repeat x n))%Q.
    rewrite IH, Nat2Z.inj_succ. unfold Z.succ. rewrite inject_Z_plus. ring.
Qed.

(** X6: a table that is returned has at least one column, so the width of
    a column is never a division by zero; its columns all have the width
    [available_width / max_cols], and under exact arithmetic the widths
    add up to the available width. *)
Theorem columns_share_the_width (raw_data_lines : list str) (t : flowable) :
  create raw_data_lines = OK (Some t) ->
  let max_cols := max_cols_of (clean_data_of raw_data_lines) in
  1 <= max_cols
  /\ table_colWidths t
     = repeat (fdiv rnd available_width (inject_Z (Z.of_nat max_cols)))
              max_cols
  /\ ((forall x : Q, rnd x == x)%Q ->
      (Qsum (table_colWidths t) == available_width)%Q).
Proof.
  intros Ht max_cols.
  assert (Hne : clean_data_of raw_data_lines <> []).
  { intros E. rewrite create_paragraph_table_spec, E in Ht. discriminate. }
  pose proof (@max_cols_positive raw_data_lines Hne) as Hpos. fold max_cols in Hpos.
  assert (Hw : table_colWidths t
               = repeat (fdiv rnd available_width
                              (inject_Z (Z.of_nat max_cols))) max_cols).
  { rewrite create_paragraph_table_spec in Ht.
    destruct (clean_data_of raw_data_lines) as [|r rs]; [congruence|].
    destruct (convert_rows markup_ok 0 _) as [d|e]; simpl in Ht;
      [|discriminate].
    injection Ht as <-. destruct (_ <? 30); reflexivity. }
  split; [exact Hpos|]. split; [exact Hw|].
  intros Hex. rewrite Hw, Qsum_repeat. unfold fdiv. rewrite Hex.
  field. intros E.
  assert (Hz : (0 < Z.of_nat max_cols)%Z) by lia.
  rewrite Zlt_Qlt in Hz. rewrite E in Hz. exact (Qlt_irrefl _ Hz).
Qed.

End TableBuilding.

Lemma table_built_witness :
  ((exists t, create_paragraph_table (fun q => q) (fun _ => true) 481
                                     example_buffer = OK (Some t))
   <-> cells_ok (fun _ => true) (normalized_data_of example_buffer)).
Proof.
  refine (proj1 (@table_built_iff_cells_accepted
                   (fun q => q) (fun _ => true) 481 example_buffer _)).
  vm_compute. discriminate.
Defined.

Lemma header_row_witness :
  exists header body widths,
    normalized_data_of example_buffer = header :: body
    /\ table_of (KeepTogether
                   [Table [styled TableCellC [py "A"; py "B"];
                           styled TableCellL [py "1"; py "2"]]
                          [(481 / 2)%Q; (481 / 2)%Q] 1])
       = Some (Table (styled TableCellC header
                      :: List.map (styled TableCellL) body) widths 1).
Proof.
  apply (@header_row_is_styled_apart (fun q => q) (fun _ => true) 481
                                     example_buffer).
  reflexivity.
Defined.

Lemma columns_share_witness :
  let t := KeepTogether
             [Table [styled TableCellC [py "A"; py "B"];
                     styled TableCellL [py "1"; py "2"]]
                    [(481 / 2)%Q; (481 / 2)%Q] 1] in
  (Qsum (table_colWidths t) == 481)%Q.
Proof.
  cbv zeta.
  refine (proj2 (proj2 (@columns_share_the_width
                          (fun q => q) (fun _ => true) 481 example_buffer
                          _ _)) _).
  - reflexivity.
  - intros x. reflexivity.
Defined.

(** ** The line loop *)

Lemma startswith_comparable (p q line : str) :
  startswith p line = true -> startswith q line = true ->
  startswith p q = true \/ startswith q p = true.
Proof.
  revert q line. induction p as [|a p IH]; intros q line Hp Hq; [now left|].
  destruct q as [|b q]; [now right|].
  destruct line as [|c line]; [discriminate|].
  simpl in *. apply andb_true_iff in Hp, Hq.
  destruct Hp as [Ha Hp], Hq as [Hb Hq].
  apply N.eqb_eq in Ha, Hb. subst a b. rewrite N.eqb_refl. simpl.
  now apply (IH q line).
Qed.

Lemma count_breaks_app (a b : list flowable) :
  count_breaks (a ++ b) = count_breaks a + count_breaks b.
Proof. unfold count_breaks. now rewrite filter_app, length_app. Qed.

Section LoopFacts.

Variable rnd : Q -> Q.
Variable markup_ok : str -> bool.
Variable available_width max_height : Q.
Variable load_image : str -> option (Z * Z).
Variable image_data_dict : image_dict.

Abbreviation create := (create_paragraph_table rnd markup_ok available_width).
Abbreviation flush := (flush_table rnd markup_ok available_width).
Abbreviation step :=
  (process_line rnd markup_ok available_width max_height load_image
                image_data_dict).
Abbreviation steps :=
  (process_lines rnd markup_ok available_width max_height load_image
                 image_data_dict).
Abbreviation unit_of :=
  (image_unit rnd markup_ok available_width max_height load_image).
Abbreviation block := (text_block markup_ok).

(** A table unit is a table or a [KeepTogether]: never a page break. *)
Lemma create_not_break (buffer : list str) (t : flowable) :
  create buffer = OK (Some t) -> is_PageBreak t = false.
Proof.
  rewrite create_paragraph_table_spec.
  destruct (clean_data_of buffer); [discriminate|].
  destruct (convert_rows markup_ok 0 _); simpl; [|discriminate].
  intros H. injection H as <-. now destruct (_ <? 30).
Qed.

(** What finalizing a pending table leaves. *)
Lemma flush_table_result (st st1 : loop_state) :
  flush st = OK st1 ->
  in_table st1 = false
  /\ (in_table st = true -> table_buffer st1 = [])
  /\ (in_table st = false -> st1 = st)
  /\ exists added,
      story st1 = story st ++ added /\ count_breaks added = 0.
Proof.
  unfold flush_table. destruct (in_table st) eqn:Ht.
  - destruct (create (table_buffer st)) as [t|e] eqn:Hc; simpl; [|discriminate].
    intros H. injection H as <-. simpl.
    split; [reflexivity|]. split; [reflexivity|]. split; [discriminate|].
    eexists. split; [reflexivity|].
    destruct t as [t|]; [|reflexivity].
    unfold count_breaks. simpl. now rewrite (create_not_break _ Hc).
  - intros H. injection H as <-.
    split; [exact Ht|]. split; [discriminate|]. split; [reflexivity|].
    exists []. split; [now rewrite app_nil_r | reflexivity].
Qed.

Lemma flush_idle (st : loop_state) : in_table st = false -> flush st = OK st.
Proof. intros H. unfold flush_table. now rewrite H. Qed.

(** A line other than a heading of level 1 adds one paragraph. *)
Lemma text_block_plain (story s : list flowable) (line : str) :
  startswith (py "# ") line = false ->
  block story line = OK s ->
  exists text sty, s = story ++ [Paragraph text sty].
Proof.
  intros Hh. unfold text_block. rewrite Hh.
  repeat match goal with
         | |- context [if ?b then _ else _] => destruct b
         end;
    unfold mkParagraph;
    match goal with
    | |- context [markup_ok ?t] => destruct (markup_ok t)
    end; simpl; intros H; try discriminate;
    injection H as <-; now do 2 eexists.
Qed.

Lemma text_block_h1 (story s : list flowable) (line : str) :
  startswith (py "# ") line = true ->
  block story line = OK s ->
  exists p,
    is_PageBreak (h1_group p) = false
    /\ s = story ++ (if 5 <? length story then [PageBreak] else [])
                 ++ [h1_group p].
Proof.
  intros Hh. unfold text_block. rewrite Hh.
  destruct (mkParagraph markup_ok _ WikiH1) as [p|e]; simpl; [|discriminate].
  intros H. injection H as <-. exists p. split; [reflexivity|].
  destruct (5 <? length story); [now rewrite <- app_assoc | reflexivity].
Qed.

(** The body of the [try] adds nothing or one group of five. *)
Lemma image_unit_shape (info : image_record) :
  unit_of info = []
  \/ exists img_w img_h,
      unit_of info
      = [KeepTogether [Spacer (2 # 10); PDFImage (path info) img_w img_h;
                       Spacer (1 # 10);
                       Paragraph ([9650; 32]%N ++ caption info) Caption;
                       Spacer (5 # 10)]].
Proof.
  unfold image_unit.
  destruct (load_image (path info)) as [[w h]|]; [|now left].
  destruct (scale_image _ _ _ w h) as [[img_w img_h]|]; [|now left].
  unfold mkParagraph. destruct (markup_ok _); [|now left].
  right. now exists img_w, img_h.
Qed.

Lemma image_unit_no_break (info : image_record) :
  count_breaks (unit_of info) = 0.
Proof.
  destruct (image_unit_shape info) as [->|[w [h ->]]]; reflexivity.
Qed.

(** One line: what it does to the state, by the kind of the line. *)
Lemma process_line_table (st : loop_state) (raw : str) :
  is_table_line raw = true ->
  step st raw = OK {| story := story st;
                      table_buffer := table_buffer st ++ [strip raw];
                      in_table := true |}.
Proof.
  unfold is_table_line, process_line. cbv zeta. now intros ->.
Qed.

Lemma process_line_other (st st' : loop_state) (raw : str) :
  is_table_line raw = false ->
  step st raw = OK st' ->
  exists st1 added,
    flush st = OK st1
    /\ story st' = story st1 ++ added
    /\ table_buffer st' = table_buffer st1
    /\ in_table st' = in_table st1
    /\ count_breaks added <= (if is_h1_line raw then 1 else 0).
Proof.
  unfold is_table_line, is_h1_line, process_line. cbv zeta. intros ->.
  destruct (flush st) as [st1|e]; cbn [bind]; [|discriminate].
  intros H. exists st1.
  destruct (strip raw) as [|c line] eqn:El.
  - injection H as <-. exists []. rewrite app_nil_r.
    repeat split; auto.
  - destruct (img_match (c :: line)) as [g|] eqn:Hm.
    + assert (Hh : startswith (py "# ") (c :: line) = false).
      { destruct (startswith (py "# ") (c :: line)) eqn:Hh; [|reflexivity].
        rewrite img_match_unfold in Hm.
        destruct (startswith (py "[[IMG:") (c :: line)) eqn:Hi; [|discriminate].
        destruct (startswith_comparable _ _ _ Hh Hi) as [X|X];
          vm_compute in X; discriminate. }
      rewrite Hh.
      destruct (dict_get (label_key_of g) image_data_dict) as [info|].
      * injection H as <-. exists (unit_of info). cbn [story with_story table_buffer in_table].
        repeat split; auto. rewrite image_unit_no_break. lia.
      * injection H as <-. exists []. rewrite app_nil_r.
        repeat split; auto.
    + destruct (block (story st1) (c :: line)) as [s|e] eqn:Hb; cbn [bind] in H;
        [|discriminate].
      injection H as <-. cbn [story with_story table_buffer in_table].
      destruct (startswith (py "# ") (c :: line)) eqn:Hh.
      * destruct (text_block_h1 _ _ Hh Hb) as [p [Hp ->]].
        eexists. split; [reflexivity|]. split; [reflexivity|].
        repeat split.
        destruct (5 <? length (story st1)); unfold count_breaks; simpl;
          rewrite ?Hp; simpl; lia.
      * destruct (text_block_plain _ _ Hh Hb) as [text [sty ->]].
        eexists. split; [reflexivity|]. split; [reflexivity|].
        repeat split; auto.
Qed.

Lemma process_lines_grows (lines : list str) :
  forall st st',
    steps st lines = OK st' ->
    exists added, story st' = story st ++ added.
Proof.
  induction lines as [|raw lines IH]; intros st st' H; simpl in H.
  - injection H as <-. exists []. now rewrite app_nil_r.
  - destruct (step st raw) as [st1|e] eqn:Hs; simpl in H; [|discriminate].
    destruct (IH _ _ H) as [added2 E2].
    assert (E1 : exists added1, story st1 = story st ++ added1).
    { destruct (is_table_line raw) eqn:Ht.
      - rewrite (process_line_table st raw Ht) in Hs. injection Hs as <-.
        exists []. simpl. now rewrite app_nil_r.
      - destruct (process_line_other _ _ Ht Hs)
          as [s1 [added [Hf [E [_ _]]]]].
        destruct (flush_table_result _ Hf) as [_ [_ [_ [a [Ea _]]]]].
        exists (a ++ added). now rewrite E, Ea, app_assoc. }
    destruct E1 as [added1 E1].
    exists (added1 ++ added2). now rewrite E2, E1, app_assoc.
Qed.

(** X8: from a state between tables, after any lines the buffer is empty
    exactly when the loop is not in a table, so the test of the buffer at
    line 391 follows from the test of the flag; a line that starts with a
    pipe only joins the buffer, trimmed, and cannot raise; any other line
    leaves the loop out of a table with an empty buffer. *)
Theorem buffer_follows_the_flag (lines : list str) :
  forall st st',
    (in_table st = true <-> table_buffer st <> []) ->
    steps st lines = OK st' ->
    (in_table st' = true <-> table_buffer st' <> [])
    /\ forall raw,
        (is_table_line raw = true ->
         step st' raw = OK {| story := story st';
                              table_buffer := table_buffer st' ++ [strip raw];
                              in_table := true |})
        /\ (is_table_line raw = false ->
            forall st'', step st' raw = OK st'' ->
                         in_table st'' = false /\ table_buffer st'' = []).
Proof.
  assert (Hother : forall st st' raw,
             (in_table st = true <-> table_buffer st <> []) ->
             is_table_line raw = false -> step st raw = OK st' ->
             in_table st' = false /\ table_buffer st' = []).
  { intros st st' raw Hinv Ht Hs.
    destruct (process_line_other _ _ Ht Hs) as [s1 [added [Hf [_ [Eb [Ei _]]]]]].
    destruct (flush_table_result _ Hf) as [Hi [Hb [Hsame _]]].
    rewrite Ei, Eb. split; [exact Hi|].
    destruct (in_table st) eqn:E; [now apply Hb|].
    rewrite (Hsame eq_refl).
    destruct (table_buffer st) as [|l ls]; [reflexivity|].
    assert (false = true) by (apply Hinv; discriminate). discriminate. }
  induction lines as [|raw lines IH]; intros st st' Hinv H; simpl in H.
  - injection H as <-. split; [exact Hinv|]. intros raw. split.
    + apply process_line_table.
    + intros Ht st'' Hs. now apply (Hother st st'' raw).
  - destruct (step st raw) as [st1|e] eqn:Hs; simpl in H; [|discriminate].
    apply (IH st1 st'); [|exact H].
    destruct (is_table_line raw) eqn:Ht.
    + rewrite (process_line_table st raw Ht) in Hs. injection Hs as <-. simpl.
      split; [intros _ | reflexivity].
      intros E. apply app_eq_nil in E. destruct E as [_ E]. discriminate.
    + destruct (Hother _ _ _ Hinv Ht Hs) as [-> ->].
      split; [discriminate | congruence].
Qed.

Lemma process_lines_app (l1 l2 : list str) :
  forall st, steps st (l1 ++ l2) = (st1 <- steps st l1 ;; steps st1 l2).
Proof.
  induction l1 as [|raw l1 IH]; intros st; [reflexivity|].
  simpl. destruct (step st raw) as [st1|e]; simpl; [apply IH | reflexivity].
Qed.

Lemma table_run_buffered (pipes : list str) :
  Forall (fun raw => is_table_line raw = true) pipes ->
  forall st,
    steps st pipes
    = OK (match pipes with
          | [] => st
          | _ :: _ => {| story := story st;
                         table_buffer := table_buffer st
                                         ++ List.map strip pipes;
                         in_table := true |}
          end).
Proof.
  induction 1 as [|raw pipes Hr Hp IH]; intros st; [reflexivity|].
  simpl. rewrite (process_line_table st raw Hr). simpl. rewrite IH.
  destruct pipes as [|raw' pipes']; simpl; [reflexivity|].
  now rewrite <- app_assoc.
Qed.

(** A line that is no table line is processed after the pending table is
    finalized, as it would be from the state that leaves. *)
Lemma process_line_after_flush (st : loop_state) (raw : str) :
  is_table_line raw = false ->
  step st raw = (st1 <- flush st ;; step st1 raw).
Proof.
  intros Ht. unfold is_table_line in Ht.
  destruct (flush st) as [st1|e] eqn:Hf; simpl.
  - destruct (flush_table_result _ Hf) as [Hi _].
    unfold process_line. cbv zeta. rewrite Ht, Hf, (flush_idle _ Hi).
    reflexivity.
  - unfold process_line. cbv zeta. now rewrite Ht, Hf.
Qed.

(** X9: a run of lines that start with a pipe, met between tables and
    followed by another line, is laid out as the table of exactly those
    lines, trimmed, between two spacers (or as nothing when no row
    remains), after which the layout goes on with the following line from
    a state between tables. *)
Theorem table_run_is_one_table
        (st : loop_state) (pipes : list str) (raw : str) (rest : list str) :
  idle_state st ->
  pipes <> [] ->
  Forall (fun l => is_table_line l = true) pipes ->
  is_table_line raw = false ->
  steps st (pipes ++ raw :: rest) =
  (t <- create (List.map strip pipes) ;;
   steps (with_story st
            (story st ++ match t with
                         | Some t => [Spacer (2 # 10); t; Spacer (5 # 10)]
                         | None => []
                         end))
         (raw :: rest)).
Proof.
  intros [Hi Hb] Hne Hp Hr.
  rewrite process_lines_app, (table_run_buffered Hp).
  set (buffer := List.map strip pipes).
  assert (E : match pipes with
              | [] => st
              | _ :: _ => {| story := story st;
                             table_buffer := table_buffer st ++ buffer;
                             in_table := true |}
              end
              = {| story := story st; table_buffer := buffer;
                   in_table := true |}).
  { destruct pipes; [congruence|]. now rewrite Hb. }
  rewrite E. cbn [bind].
  change (steps ?s (raw :: rest)) with (s1 <- step s raw ;; steps s1 rest).
  rewrite (process_line_after_flush _ raw Hr).
  unfold flush_table at 1. cbn [in_table table_buffer story].
  destruct (create buffer) as [t|e]; [|reflexivity].
  cbn [bind]. unfold with_story. rewrite Hi, Hb. reflexivity.
Qed.

(** X10: a line the image pattern matches adds nothing or one group (a
    spacer, the image, a spacer, the caption, a spacer); a failure to load,
    scale or caption the image never leaves the line: the only exception
    the line can raise is the one of the table it finalizes. *)
Theorem image_line_never_fails (st : loop_state) (raw g : str) :
  img_match (strip raw) = Some g ->
  (forall e, step st raw = Raise e -> flush st = Raise e)
  /\ (forall st1, flush st = OK st1 ->
      exists st',
        step st raw = OK st'
        /\ table_buffer st' = table_buffer st1
        /\ in_table st' = in_table st1
        /\ (story st' = story st1
            \/ exists info img_w img_h,
                dict_get (label_key_of g) image_data_dict = Some info
                /\ story st'
                   = story st1
                     ++ [KeepTogether
                           [Spacer (2 # 10);
                            PDFImage (path info) img_w img_h;
                            Spacer (1 # 10);
                            Paragraph ([9650; 32]%N ++ caption info) Caption;
                            Spacer (5 # 10)]])).
Proof.
  intros Hm. rewrite (process_line_image _ _ _ _ _ image_data_dict st raw Hm).
  split.
  - intros e. destruct (flush st) as [st1|e']; simpl; [|trivial].
    destruct (dict_get _ _); discriminate.
  - intros st1 ->. simpl.
    destruct (dict_get (label_key_of g) image_data_dict) as [info|] eqn:Hk.
    + eexists. split; [reflexivity|]. simpl.
      split; [reflexivity|]. split; [reflexivity|].
      destruct (image_unit_shape info) as [->|[w [h ->]]].
      * left. now rewrite app_nil_r.
      * right. now exists info, w, h.
    + exists st1. repeat split. now left.
Qed.

Lemma process_lines_breaks (lines : list str) :
  forall st st',
    steps st lines = OK st' ->
    count_breaks (story st')
    <= count_breaks (story st) + length (filter is_h1_line lines).
Proof.
  induction lines as [|raw lines IH]; intros st st' H; simpl in H.
  - injection H as <-. simpl. lia.
  - destruct (step st raw) as [st1|e] eqn:Hs; simpl in H; [|discriminate].
    specialize (IH _ _ H).
    assert (H1 : count_breaks (story st1)
                 <= count_breaks (story st)
                    + (if is_h1_line raw then 1 else 0)).
    { destruct (is_table_line raw) eqn:Ht.
      - rewrite (process_line_table st raw Ht) in Hs. injection Hs as <-.
        simpl. lia.
      - destruct (process_line_other _ _ Ht Hs)
          as [s1 [added [Hf [E [_ [_ Hc]]]]]].
        destruct (flush_table_result _ Hf) as [_ [_ [_ [a [Ea Ha]]]]].
        rewrite E, Ea, !count_breaks_app, Ha. lia. }
    simpl. destruct (is_h1_line raw); simpl; lia.
Qed.

End LoopFacts.

Section StoryFacts.

Variable rnd : Q -> Q.
Variable markup_ok : str -> bool.
Variable available_width max_height : Q.
Variable load_image : str -> option (Z * Z).
Variable path_stem : str -> str.

Abbreviation steps :=
  (process_lines rnd markup_ok available_width max_height load_image).
Abbreviation story_for :=
  (build_story rnd markup_ok available_width max_height load_image path_stem).

Lemma finish_table_result (st : loop_state) (story' : list flowable) :
  finish_table rnd markup_ok available_width st = OK story' ->
  exists added, story' = story st ++ added /\ count_breaks added = 0.
Proof.
  unfold finish_table.
  destruct (in_table st); [destruct (table_buffer st) as [|l ls] eqn:Eb|].
  - intros H. injection H as <-. exists []. now rewrite app_nil_r.
  - destruct (create_paragraph_table rnd markup_ok available_width (l :: ls))
      as [t|e] eqn:Hc; simpl; [|discriminate].
    intros H. injection H as <-. eexists. split; [reflexivity|].
    destruct t as [t|]; [|reflexivity].
    unfold count_breaks. simpl. now rewrite (create_not_break _ _ _ _ Hc).
  - intros H. injection H as <-. exists []. now rewrite app_nil_r.
Qed.

(** X7: the layout only appends. Within the line loop the units already
    in the story are never changed or removed by a later line, and the
    story handed to the builder always opens with the title paragraph, the
    title rule and a spacer of 1 cm. *)
Theorem story_only_grows :
  (forall images lines st st',
      steps images st lines = OK st' ->
      exists added, story st' = story st ++ added)
  /\ forall markdown_text images original_filename story,
      story_for markdown_text images original_filename = OK story ->
      markup_ok (path_stem original_filename ++ title_suffix) = true
      /\ exists rest,
          story = [Paragraph (path_stem original_filename ++ title_suffix)
                             MainTitle;
                   Drawing TitleRule; Spacer 1] ++ rest.
Proof.
  split.
  - intros images lines st st'. apply process_lines_grows.
  - intros text images name units. unfold build_story, title_block, mkParagraph.
    destruct (markup_ok (path_stem name ++ title_suffix)); simpl;
      [|discriminate].
    destruct (steps images _ (split 10%N text)) as [st|e] eqn:Hs; simpl;
      [|discriminate].
    intros Hf. split; [reflexivity|].
    destruct (process_lines_grows _ _ _ _ _ _ _ _ Hs) as [a Ea].
    destruct (finish_table_result _ Hf) as [b [Eb _]].
    exists (a ++ b). rewrite Eb, Ea. cbn [story]. now rewrite <- app_assoc.
Qed.

(** X13: page breaks come from headings of level 1 only. The story of a
    document holds at most as many page breaks as the document has lines
    that start with [# ]; one without such a line holds none. *)
Theorem page_breaks_only_before_h1 :
  forall markdown_text images original_filename story,
    story_for markdown_text images original_filename = OK story ->
    count_breaks story
    <= length (filter is_h1_line (split 10%N markdown_text)).
Proof.
  intros text images name units. unfold build_story, title_block, mkParagraph.
  destruct (markup_ok (path_stem name ++ title_suffix)); simpl;
    [|discriminate].
  destruct (steps images _ (split 10%N text)) as [st|e] eqn:Hs; simpl;
    [|discriminate].
  intros Hf.
  pose proof (process_lines_breaks _ _ _ _ _ _ _ _ Hs) as Hb.
  destruct (finish_table_result _ Hf) as [b [-> Hz]].
  rewrite count_breaks_app, Hz.
  cbn [story] in Hb. unfold count_breaks at 2 in Hb. simpl in Hb. lia.
Qed.

End StoryFacts.

Lemma page_breaks_witness :
  exists story,
    build_story (fun q => q) (fun _ => true) 481 283 (fun _ => None)
                (fun name => name) sample_report [] (py "doc") = OK story
    /\ count_breaks story <= 1.
Proof.
  eexists. split; [vm_compute; reflexivity|].
  apply (@page_breaks_only_before_h1
           (fun q => q) (fun _ => true) 481 283 (fun _ => None)
           (fun name => name) sample_report [] (py "doc")).
  vm_compute. reflexivity.
Defined.

Lemma buffer_follows_witness :
  let st' := {| story := []; table_buffer := [py "| a |"]; in_table := true |} in
  in_table st' = true <-> table_buffer st' <> [].
Proof.
  cbv zeta.
  refine (proj1 (@buffer_follows_the_flag
                   (fun q => q) (fun _ => true) 481 283 (fun _ => None) []
                   [py "| a |"] (idle [])
                   {| story := []; table_buffer := [py "| a |"];
                      in_table := true |} _ _)).
  - split; [discriminate | intros H; now contradiction H].
  - reflexivity.
Defined.

Lemma table_run_witness :
  process_lines (fun q => q) (fun _ => true) 481 283 (fun _ => None) []
                (idle (story_of 1))
                ([py "| a | b |"; py "| 1 | 2 |"] ++ [py "after"]) =
  (t <- create_paragraph_table (fun q => q) (fun _ => true) 481
          (List.map strip [py "| a | b |"; py "| 1 | 2 |"]) ;;
   process_lines (fun q => q) (fun _ => true) 481 283 (fun _ => None) []
     (with_story (idle (story_of 1))
        (story (idle (story_of 1))
         ++ match t with
            | Some t => [Spacer (2 # 10); t; Spacer (5 # 10)]
            | None => []
            end))
     [py "after"]).
Proof.
  apply (@table_run_is_one_table
           (fun q => q) (fun _ => true) 481 283 (fun _ => None) []
           (idle (story_of 1)) [py "| a | b |"; py "| 1 | 2 |"]
           (py "after") []).
  - split; reflexivity.
  - discriminate.
  - repeat constructor.
  - reflexivity.
Defined.

Lemma image_line_witness :
  exists st',
    process_line (fun q => q) (fun _ => true) 481 283 (fun _ => None)
                 [(py "fig1", record_1)] (idle (story_of 1))
                 (py "[[IMG: fig1]]") = OK st'
    /\ table_buffer st' = []
    /\ in_table st' = false
    /\ (story st' = story_of 1
        \/ exists info img_w img_h,
            dict_get (label_key_of (py "fig1")) [(py "fig1", record_1)]
            = Some info
            /\ story st'
               = story_of 1
                 ++ [KeepTogether
                       [Spacer (2 # 10); PDFImage (path info) img_w img_h;
                        Spacer (1 # 10);
                        Paragraph ([9650; 32]%N ++ caption info) Caption;
                        Spacer (5 # 10)]]).
Proof.
  exact (proj2 (@image_line_never_fails
                  (fun q => q) (fun _ => true) 481 283 (fun _ => None)
                  [(py "fig1", record_1)] (idle (story_of 1))
                  (py "[[IMG: fig1]]") (py "fig1") eq_refl)
               (idle (story_of 1)) eq_refl).
Defined.

(** ** Classes of lines, and images that need no scaling *)

Ltac prefix_clash :=
  match goal with
  | H1 : startswith ?p ?l = true, H2 : startswith ?q ?l = true |- _ =>
      let X := fresh "X" in
      destruct (startswith_comparable _ _ _ H1 H2) as [X|X];
      vm_compute in X; discriminate X
  end.

(** X12: the tests of the line loop exclude one another: a line passes at
    most one of them, so the class of a line does not depend on the order
    in which the tests are made. *)
Theorem line_classes_are_exclusive :
  forall line : str,
    length (filter (fun b : bool => b) (line_classes line)) <= 1.
Proof.
  intros line. unfold line_classes.
  assert (Hi : forall g, img_match line = Some g ->
                         startswith (py "[[IMG:") line = true).
  { intros g Hg. rewrite img_match_unfold in Hg.
    now destruct (startswith (py "[[IMG:") line). }
  destruct (img_match line) as [g|];
    [specialize (Hi g eq_refl) | clear Hi];
    destruct (startswith (py "|") line) eqn:H0,
             (startswith (py "# ") line) eqn:H1,
             (startswith (py "## ") line) eqn:H2,
             (startswith (py "### ") line) eqn:H3,
             (startswith (py "#### ") line) eqn:H4,
             (startswith (py "- ") line) eqn:H5,
             (startswith (py "* ") line) eqn:H6;
    simpl; try lia; exfalso; prefix_clash.
Qed.

(** X11: an image whose file loads with a non-zero width at most the
    available width and a height at most the maximum height is drawn at
    its pixel size, whatever the rounding: the unit added to the story
    holds the image with these two sizes when the caption is accepted, and
    nothing is added when it is not. When the file loads with a width of
    zero the division of line 345 raises and nothing is added either. *)
Theorem small_images_keep_their_size
        (rnd : Q -> Q) (markup_ok : str -> bool)
        (available_width max_height : Q)
        (load_image : str -> option (Z * Z))
        (info : image_record) (imageWidth imageHeight : Z) :
  load_image (path info) = Some (imageWidth, imageHeight) ->
  (imageWidth = 0%Z ->
   image_unit rnd markup_ok available_width max_height load_image info = [])
  /\ (imageWidth <> 0%Z ->
      (inject_Z imageWidth <= available_width)%Q ->
      (inject_Z imageHeight <= max_height)%Q ->
      scale_image rnd available_width max_height imageWidth imageHeight
      = Some (inject_Z imageWidth, inject_Z imageHeight)
      /\ image_unit rnd markup_ok available_width max_height load_image info
         = if markup_ok ([9650; 32]%N ++ caption info)
           then [KeepTogether
                   [Spacer (2 # 10);
                    PDFImage (path info) (inject_Z imageWidth)
                             (inject_Z imageHeight);
                    Spacer (1 # 10);
                    Paragraph ([9650; 32]%N ++ caption info) Caption;
                    Spacer (5 # 10)]]
           else []).
Proof.
  intros Hload. split.
  - intros ->. unfold image_unit. now rewrite Hload.
  - intros Hw Hfit Hlow.
    assert (E : scale_image rnd available_width max_height
                            imageWidth imageHeight
                = Some (inject_Z imageWidth, inject_Z imageHeight)).
    { unfold scale_image.
      destruct (Z.eqb_spec imageWidth 0) as [E|_]; [contradiction|].
      apply Qle_bool_iff in Hfit, Hlow.
      unfold bound_width, Qgtb. rewrite Hfit. cbn [negb].
      unfold bound_height, Qgtb. now rewrite Hlow. }
    split; [exact E|].
    unfold image_unit, mkParagraph. rewrite Hload, E.
    now destruct (markup_ok ([9650; 32]%N ++ caption info)).
Qed.

(** A 320 by 200 image keeps its size, under a rounding that would change
    a computed one. *)
Lemma small_images_witness :
  image_unit round_1024 (fun _ => true) 481 283
             (fun _ => Some (320, 200)%Z) record_1
  = [KeepTogether
       [Spacer (2 # 10); PDFImage (path record_1) 320 200; Spacer (1 # 10);
        Paragraph ([9650; 32]%N ++ caption record_1) Caption;
        Spacer (5 # 10)]].
Proof.
  refine (proj2 (proj2 (@small_images_keep_their_size
                          round_1024 (fun _ => true) 481 283
                          (fun _ => Some (320, 200)%Z) record_1 320 200
                          eq_refl) _ _ _));
    discriminate.
Defined.

(** ** Extraction: labels and the cap *)

Lemma py_injective (a b : String.string) : py a = py b -> a = b.
Proof.
  unfold py. intros H.
  rewrite <- (string_of_list_ascii_of_string a),
          <- (string_of_list_ascii_of_string b).
  f_equal.
  revert H. generalize (list_ascii_of_string a) (list_ascii_of_string b).
  induction l as [|x l IH]; intros [|y l']; simpl; intros H;
    try discriminate; [reflexivity|].
  injection H as Hx Hl. f_equal; [|now apply IH].
  now rewrite <- (ascii_N_embedding x), <- (ascii_N_embedding y), Hx.
Qed.

Lemma of_nat_injective (m n : nat) : of_nat m = of_nat n -> m = n.
Proof.
  unfold of_nat. intros H. apply py_injective in H.
  apply (f_equal DecimalString.NilEmpty.uint_of_string) in H.
  rewrite !DecimalString.NilEmpty.usu in H. injection H as H.
  rewrite <- (DecimalNat.Unsigned.of_to m), <- (DecimalNat.Unsigned.of_to n).
  now rewrite H.
Qed.

Lemma label_of_injective (m n : nat) : label_of m = label_of n -> m = n.
Proof.
  unfold label_of. intros H. injection H as H. now apply of_nat_injective.
Qed.

(** Setting a key the map does not hold appends the entry. *)
Lemma dict_set_fresh (k : str) (v : image_record) (d : image_dict) :
  ~ In k (List.map fst d) -> dict_set k v d = d ++ [(k, v)].
Proof.
  induction d as [|[k' v'] d IH]; simpl; intros H; [reflexivity|].
  destruct (str_eqb k k') eqn:E.
  - apply str_eqb_eq in E. exfalso. apply H. now left.
  - f_equal. apply IH. intros Hin. apply H. now right.
Qed.

(** A key of the map is found, with a value filed under it. *)
Lemma dict_get_In (k : str) (d : image_dict) :
  In k (List.map fst d) -> exists v, dict_get k d = Some v /\ In (k, v) d.
Proof.
  induction d as [|[k' v'] d IH]; simpl; [contradiction|].
  intros H. destruct (str_eqb k k') eqn:E.
  - apply str_eqb_eq in E. subst k'. exists v'. split; [reflexivity | now left].
  - destruct H as [->|H].
    + assert (str_eqb k k = true) by now apply str_eqb_eq. congruence.
    + destruct (IH H) as [v [Hg Hin]]. exists v. split; [exact Hg | now right].
Qed.

Section CapFacts.

Variable llm_caption : nat -> list Byte.byte -> option str.

Abbreviation accept := (extract_image llm_caption).
Abbreviation scan := (extract_pages llm_caption).

Lemma extract_image_sequential (st : extract_state) img :
  sequential st -> sequential (accept st img).
Proof.
  intros [Hk Hr]. unfold extract_image.
  destruct img as [[image_bytes ext]|]; [|now split].
  destruct (length image_bytes <? 5000); [now split|].
  destruct (llm_caption (img_count st + 1) image_bytes) as [content|];
    [|now split].
  assert (Hfresh : ~ In (label_of (img_count st + 1))
                        (List.map fst (image_data st))).
  { rewrite Hk. intros Hin. apply in_map_iff in Hin.
    destruct Hin as [k [E Hin]]. apply label_of_injective in E.
    apply in_seq in Hin. lia. }
  split; simpl; rewrite (@dict_set_fresh _ _ _ Hfresh).
  - rewrite map_app, Hk, Nat.add_1_r, seq_S, map_app. reflexivity.
  - apply Forall_app. split; [exact Hr|].
    constructor; [|constructor]. simpl. split; [reflexivity|].
    apply strip_by_idempotent.
Qed.

Lemma extract_image_count (st : extract_state) img :
  img_count st <= img_count (accept st img) <= img_count st + 1.
Proof.
  unfold extract_image.
  destruct img as [[image_bytes ext]|]; [|lia].
  destruct (length image_bytes <? 5000); [lia|].
  destruct (llm_caption _ _); simpl; lia.
Qed.

Lemma page_sequential (imgs : list (option (list Byte.byte * str))) :
  forall st,
    sequential st ->
    sequential (fold_left accept imgs st)
    /\ img_count st <= img_count (fold_left accept imgs st)
       <= img_count st + length imgs.
Proof.
  induction imgs as [|img imgs IH]; intros st H; [split; [exact H | simpl; lia]|].
  cbn [fold_left length].
  destruct (IH _ (extract_image_sequential img H)) as [Hs Hc].
  split; [exact Hs|].
  pose proof (extract_image_count st img). lia.
Qed.

Lemma extract_pages_sequential (pages : list page) :
  forall st,
    sequential st ->
    sequential (scan st pages)
    /\ img_count (scan st pages)
       <= Nat.max (img_count st) (49 + max_page_images pages).
Proof.
  induction pages as [|pg pages IH]; intros st H.
  - split; [exact H | simpl; lia].
  - rewrite extract_pages_cons.
    destruct (Nat.leb_spec MAX_IMAGES (img_count st)) as [Hcap|Hcap];
      [split; [exact H | lia]|].
    destruct (page_sequential (page_images pg) H) as [Hs Hc].
    destruct (IH _ Hs) as [Hs' Hc'].
    split; [exact Hs'|].
    unfold max_page_images in *. cbn [List.map list_max fold_right].
    change (fold_right Nat.max 0 ?l) with (list_max l).
    unfold MAX_IMAGES in Hcap. lia.
Qed.

Lemma extract_pages_stops (pages1 pages2 : list page) :
  forall st,
    MAX_IMAGES <= img_count (scan st pages1) ->
    scan st (pages1 ++ pages2) = scan st pages1.
Proof.
  induction pages1 as [|pg pages1 IH]; intros st H.
  - destruct pages2 as [|pg2 pages2]; [reflexivity|].
    cbn [app]. rewrite extract_pages_cons.
    cbn [extract_pages] in H.
    now destruct (Nat.leb_spec MAX_IMAGES (img_count st)); [|lia].
  - change ((pg :: pages1) ++ pages2) with (pg :: (pages1 ++ pages2)).
    rewrite !extract_pages_cons. rewrite extract_pages_cons in H.
    destruct (MAX_IMAGES <=? img_count st); [reflexivity|].
    now apply IH.
Qed.

(** X14: the keys of the returned map are the labels of 1, 2, ... up to
    the number of images returned, in the order of acceptance and without
    a gap or a repeat, whatever images were skipped in between; each
    record carries its own key as label and a trimmed caption, its scratch
    file holds at least 5000 bytes, and every label up to the count is
    found in the map. *)
Theorem labels_are_sequential (doc : document) :
  forall text img_list images files,
    extract_content_from_pdf llm_caption doc = (text, img_list, images, files) ->
    List.map fst images = List.map label_of (seq 1 (length images))
    /\ NoDup (List.map fst images)
    /\ Forall (fun kv =>
                 label (snd kv) = fst kv
                 /\ strip (caption (snd kv)) = caption (snd kv)
                 /\ exists bytes,
                     read_file (path (snd kv)) files = Some bytes
                     /\ 5000 <= length bytes) images
    /\ forall k, 1 <= k <= length images ->
                 exists r, dict_get (label_of k) images = Some r
                           /\ label r = label_of k.
Proof.
  intros text img_list images files E.
  pose proof (accepted_images_are_large E) as Hlarge.
  unfold extract_content_from_pdf in E. injection E as _ _ <- <-.
  destruct (@extract_pages_sequential doc
              {| img_count := 0; image_data := []; temp_files := [] |})
    as [[Hk Hr] _]; [split; [reflexivity | constructor]|].
  set (st := scan _ doc) in *.
  assert (Hlen : length (image_data st) = img_count st).
  { rewrite <- (length_map fst), Hk, length_map. apply length_seq. }
  split; [now rewrite Hlen|]. split; [|split].
  - rewrite Hk. apply Finite.Injective_map_NoDup; [|apply seq_NoDup].
    intros a b. apply label_of_injective.
  - rewrite Forall_forall in *. intros kv Hin.
    destruct (Hr kv Hin) as [Hl Hc]. auto.
  - intros k Hk1.
    destruct (@dict_get_In (label_of k) (image_data st)) as [r [Hg Hin]].
    + rewrite Hk. apply in_map. apply in_seq. lia.
    + exists r. split; [exact Hg|].
      rewrite Forall_forall in Hr. now destruct (Hr _ Hin).
Qed.

(** X15: what the cap does bound. The number of images returned is at
    most 49 plus the largest number of images on one page, hence at most
    50 when no page embeds more than one image; and once 50 images are
    accepted at the end of a page, the pages after it add none. *)
Theorem cap_holds_between_pages (doc : document) :
  forall text img_list images files,
    extract_content_from_pdf llm_caption doc = (text, img_list, images, files) ->
    length images <= 49 + max_page_images doc
    /\ (max_page_images doc <= 1 -> length images <= MAX_IMAGES)
    /\ forall later text' img_list' images' files',
        MAX_IMAGES <= length images ->
        extract_content_from_pdf llm_caption (doc ++ later)
        = (text', img_list', images', files') ->
        images' = images /\ files' = files.
Proof.
  intros text img_list images files E.
  unfold extract_content_from_pdf in E. injection E as _ _ <- <-.
  destruct (@extract_pages_sequential doc
              {| img_count := 0; image_data := []; temp_files := [] |})
    as [[Hk _] Hc]; [split; [reflexivity | constructor]|].
  set (st0 := {| img_count := 0; image_data := []; temp_files := [] |}) in *.
  assert (Hlen : length (image_data (scan st0 doc)) = img_count (scan st0 doc)).
  { rewrite <- (length_map fst), Hk, length_map. apply length_seq. }
  rewrite Hlen. cbn [img_count st0] in Hc.
  split; [lia|]. split; [unfold MAX_IMAGES; lia|].
  intros later text' img_list' images' files' Hcap E'.
  unfold extract_content_from_pdf in E'. injection E' as _ _ <- <-.
  fold st0. now rewrite (extract_pages_stops doc later st0 Hcap).
Qed.

End CapFacts.

Lemma labels_witness :
  let '(_, _, images, _) := sample_extraction in
  List.map fst images = List.map label_of (seq 1 (length images)).
Proof.
  unfold sample_extraction.
  destruct (extract_content_from_pdf (fun _ _ => Some (py " chart "))
                                     sample_doc)
    as [[[text img_list] images] files] eqn:E.
  exact (proj1 (labels_are_sequential E)).
Defined.

Lemma cap_witness :
  let '(_, _, images, _) := sample_extraction in
  length images <= 49 + max_page_images sample_doc.
Proof.
  unfold sample_extraction.
  destruct (extract_content_from_pdf (fun _ _ => Some (py " chart "))
                                     sample_doc)
    as [[[text img_list] images] files] eqn:E.
  exact (proj1 (cap_holds_between_pages E)).
Defined.

(** Three images are accepted from the sample: the small one and the one
    that cannot be extracted take no number. *)
Example sample_extraction_labels :
  let '(_, img_list, images, _) := sample_extraction in
  List.map fst images = [label_of 1; label_of 2; label_of 3]
  /\ img_list = join [10%N] [label_of 1 ++ py ": chart";
                             label_of 2 ++ py ": chart";
                             label_of 3 ++ py ": chart"].
Proof. vm_compute. split; reflexivity. Qed.

(** ** The driver: every source has its own outcome *)

Section MainFacts.

Variable rnd : Q -> Q.
Variable markup_ok : str -> bool.
Variable available_width max_height : Q.
Variable load_image : str -> option (Z * Z).
Variable path_stem : str -> str.
Variable build_ok : list flowable -> bool.
Variable llm_caption : nat -> list Byte.byte -> option str.
Variable open_pdf : str -> option document.
Variable llm_summary : str -> str -> option str.

Abbreviation saved :=
  (save_result rnd markup_ok available_width max_height load_image path_stem
               build_ok llm_caption open_pdf llm_summary).
Abbreviation process :=
  (process_file rnd markup_ok available_width max_height load_image path_stem
                build_ok llm_caption open_pdf llm_summary).
Abbreviation run_main :=
  (main rnd markup_ok available_width max_height load_image path_stem
        build_ok llm_caption open_pdf llm_summary).





Lemma entries_remove_name (n m : str) (l : list str) :
  entries n (remove_name m l) = if str_eqb m n then 0 else entries n l.
Proof.
  unfold entries, remove_name.
  induction l as [|x l IH]; simpl.
  - now destruct (str_eqb m n).
  - destruct (str_eqb m x) eqn:Emx; simpl.
    + apply str_eqb_eq in Emx. subst x. rewrite IH.
      destruct (list_eq_dec N.eq_dec m n) as [->|Hne].
      * assert (E : str_eqb n n = true) by now apply str_eqb_eq.
        now rewrite E.
      * reflexivity.
    + destruct (list_eq_dec N.eq_dec x n) as [->|Hne].
      * rewrite Emx in *. now rewrite IH.
      * exact IH.
Qed.

(** One source: the entries of a name in the two directories. *)
Lemma process_file_entries (d : dirs) (f n : str) :
  (n <> f ->
   entries n (input_dir (process d f)) = entries n (input_dir d)
   /\ entries n (processed_dir (process d f)) = entries n (processed_dir d))
  /\ (saved f <> OK true -> process d f = d)
  /\ (saved f = OK true ->
      entries f (input_dir (process d f)) = 0
      /\ entries f (processed_dir (process d f)) = 1).
Proof.
  assert (Eff : str_eqb f f = true) by now apply str_eqb_eq.
  unfold process_file. split; [|split].
  - intros Hne.
    assert (Efn : str_eqb f n = false).
    { destruct (str_eqb f n) eqn:E; [|reflexivity].
      apply str_eqb_eq in E. congruence. }
    destruct (saved f) as [[|]|e]; try tauto.
    unfold move_to_processed. cbn [input_dir processed_dir].
    split; [now rewrite entries_remove_name, Efn|].
    unfold entries at 1. cbn [count_occ].
    destruct (list_eq_dec N.eq_dec f n) as [E|_]; [congruence|].
    fold (entries n (remove_name f (processed_dir d))).
    now rewrite entries_remove_name, Efn.
  - intros Hs. destruct (saved f) as [[|]|e]; congruence.
  - intros ->. unfold move_to_processed. cbn [input_dir processed_dir].
    split; [now rewrite entries_remove_name, Eff|].
    unfold entries at 1. cbn [count_occ].
    destruct (list_eq_dec N.eq_dec f f) as [_|E]; [|congruence].
    fold (entries f (remove_name f (processed_dir d))).
    now rewrite entries_remove_name, Eff.
Qed.

Lemma fold_process_entries (fs : list str) (n : str) :
  forall d : dirs,
    (saved n <> OK true \/ ~ In n fs ->
     entries n (input_dir (fold_left process fs d)) = entries n (input_dir d)
     /\ entries n (processed_dir (fold_left process fs d))
        = entries n (processed_dir d))
    /\ (saved n = OK true -> In n fs ->
        entries n (input_dir (fold_left process fs d)) = 0
        /\ entries n (processed_dir (fold_left process fs d)) = 1).
Proof.
  induction fs as [|g fs IH]; intros d.
  - split; [tauto | contradiction].
  - cbn [fold_left].
    destruct (IH (process d g)) as [I1 I2].
    destruct (process_file_entries d g n) as [P1 [P2 P3]].
    split.
    + intros Hn.
      destruct (list_eq_dec N.eq_dec n g) as [->|Hne].
      * destruct Hn as [Hs|Hnot]; [|exfalso; apply Hnot; now left].
        rewrite (P2 Hs). apply (IH d). now left.
      * destruct (P1 Hne) as [E1 E2]. rewrite <- E1, <- E2.
        apply I1. destruct Hn as [Hs|Hnot]; [now left|].
        right. intros H. apply Hnot. now right.
    + intros Hs Hin.
      destruct (in_dec (list_eq_dec N.eq_dec) n fs) as [Hfs|Hfs];
        [now apply I2|].
      destruct Hin as [E|Hin]; [subst g | contradiction].
      destruct (I1 (or_intror Hfs)) as [J1 J2]. rewrite J1, J2.
      exact (P3 Hs).
Qed.

(** X16: what [main] does to the files of a name, the two directories
    being lists of names and removing and moving taken to succeed. A
    source whose name ends in [.pdf] and for which [save_to_pdf] answers
    [True] replaces the file of the same name in the processed directory:
    afterwards that directory holds the name once, whatever it held
    before, and the input directory does not hold it, so that a file of
    that name archived earlier is lost. A name ending in [.pdf] for which
    anything else happens, and a name that the input directory does not
    hold, has as many files in each directory as before. *)
Theorem archived_namesake_is_replaced :
  forall (d : dirs) (n : str),
    (In n (input_dir d) -> endswith (py ".pdf") n = true ->
     saved n = OK true ->
     entries n (input_dir (run_main d)) = 0
     /\ entries n (processed_dir (run_main d)) = 1
     /\ (In n (processed_dir d) ->
         entries n (input_dir (run_main d))
         + entries n (processed_dir (run_main d))
         < entries n (input_dir d) + entries n (processed_dir d)))
    /\ (endswith (py ".pdf") n = true -> saved n <> OK true ->
        entries n (input_dir (run_main d)) = entries n (input_dir d)
        /\ entries n (processed_dir (run_main d))
           = entries n (processed_dir d))
    /\ (~ In n (input_dir d) ->
        entries n (input_dir (run_main d)) = 0
        /\ entries n (processed_dir (run_main d))
           = entries n (processed_dir d)).
Proof.
  intros d n. unfold main. cbv zeta.
  destruct (fold_process_entries
              (filter (endswith (py ".pdf")) (input_dir d)) n d) as [I1 I2].
  split; [|split].
  - intros Hin Hext Hs.
    assert (Hfs : In n (filter (endswith (py ".pdf")) (input_dir d)))
      by now apply filter_In.
    destruct (I2 Hs Hfs) as [J1 J2].
    split; [exact J1|]. split; [exact J2|].
    intros Hold. rewrite J1, J2.
    apply (count_occ_In (list_eq_dec N.eq_dec)) in Hin, Hold.
    unfold entries. lia.
  - intros _ Hs. apply I1. now left.
  - intros Hnot.
    assert (H0 : entries n (input_dir d) = 0).
    { unfold entries. now apply count_occ_not_In. }
    assert (Hfs : ~ In n (filter (endswith (py ".pdf")) (input_dir d))).
    { intros H. apply filter_In in H. tauto. }
    destruct (I1 (or_intror Hfs)) as [J1 J2].
    split; [now rewrite J1 | exact J2].
Qed.


End MainFacts.


Example sample_main_outcome :
  sample_main sample_dirs
  = {| input_dir := [py "bad.pdf"; py "notes.txt"];
       processed_dir := [py "a.pdf"; py "old.pdf"] |}.
Proof. vm_compute. reflexivity. Qed.

(** A second run on [a.pdf]: the file archived by the first run is
    replaced, and the processed directory holds three files, not four. *)
Example rerun_replaces_the_archived_file :
  sample_main rerun_dirs
  = {| input_dir := [];
       processed_dir := [py "b.pdf"; py "a.pdf"; py "old.pdf"] |}.
Proof. vm_compute. reflexivity. Qed.

(** ** Font detection *)

Lemma first_font_spec (path_exists register_ok : str -> bool)
      (paths : list str) :
  (first_font path_exists register_ok paths = py "Japanese"
   /\ exists path, In path paths /\ path_exists path = true
                   /\ register_ok path = true)
  \/ (first_font path_exists register_ok paths = py "Helvetica"
      /\ forall path, In path paths ->
                      path_exists path && register_ok path = false).
Proof.
  induction paths as [|p paths IH]; simpl.
  - right. split; [reflexivity | contradiction].
  - destruct (path_exists p) eqn:He, (register_ok p) eqn:Hr;
      try (destruct IH as [[E [q [Hq H]]]|[E H]];
           [left; split; [exact E | exists q; split; [now right | exact H]]
           |right; split; [exact E|];
            intros q [<-|Hq]; [now rewrite He, Hr | now apply H]]).
    left. split; [reflexivity|]. exists p. split; [now left | now split].
Qed.

(** X18: [get_jp_font_name] answers [Japanese] exactly when one of the
    four candidate files exists and registers, and [Helvetica] exactly
    when none does; a candidate that exists and fails to register is
    passed over and the later ones are still tried. *)
Theorem font_is_japanese_iff_registered :
  forall path_exists register_ok : str -> bool,
    (get_jp_font_name path_exists register_ok = py "Japanese"
     <-> exists path, In path font_paths /\ path_exists path = true
                      /\ register_ok path = true)
    /\ (get_jp_font_name path_exists register_ok = py "Helvetica"
        <-> forall path, In path font_paths ->
                         path_exists path && register_ok path = false).
Proof.
  intros pe ro. unfold get_jp_font_name.
  destruct (first_font_spec pe ro font_paths) as [[E [q [Hq [H1 H2]]]]|[E H]];
    rewrite E.
  - split; split.
    + intros _. now exists q.
    + reflexivity.
    + intros X. vm_compute in X. discriminate X.
    + intros H. specialize (H q Hq). rewrite H1, H2 in H. discriminate.
  - split; split.
    + intros X. vm_compute in X. discriminate X.
    + intros [q [Hq [H1 H2]]]. specialize (H q Hq). rewrite H1, H2 in H.
      discriminate.
    + intros _. exact H.
    + reflexivity.
Qed.

(** ** Inline markup *)

Lemma re_sub_no_match (pattern : list re_item) (repl : list str -> str)
      (pre s : str) :
  (forall c t, In c pre -> re_match pattern (c :: t) = None) ->
  re_sub pattern repl 0 (pre ++ s) = pre ++ re_sub pattern repl 0 s.
Proof.
  induction pre as [|c pre IH]; intros H; [reflexivity|].
  change ((c :: pre) ++ s) with (c :: (pre ++ s)).
  cbn [re_sub]. rewrite (H c (pre ++ s) (or_introl eq_refl)).
  cbn [app]. f_equal. apply IH. intros c' t Hc. apply H. now right.
Qed.

Lemma re_sub_step (pattern : list re_item) (repl : list str -> str)
      (c : char) (s : str) :
  re_sub pattern repl 0 (c :: s) =
  match re_match pattern (c :: s) with
  | Some (groups, rest) =>
      repl groups
      ++ re_sub pattern repl (length (c :: s) - length rest - 1) s
  | None => c :: re_sub pattern repl 0 s
  end.
Proof. reflexivity. Qed.

Lemma re_sub_skip (pattern : list re_item) (repl : list str -> str)
      (a s : str) :
  re_sub pattern repl (length a) (a ++ s) = re_sub pattern repl 0 s.
Proof. induction a as [|c a IH]; [reflexivity | exact IH]. Qed.

Lemma br_needs_lt (c : char) (t : str) :
  c <> chr "<" -> re_match br_pattern (c :: t) = None.
Proof.
  intros H. unfold br_pattern. cbn [re_match].
  destruct (N.eqb_spec (chr "<") c) as [E|_]; [congruence | reflexivity].
Qed.

Lemma bold_needs_star (c : char) (t : str) :
  c <> chr "*" -> re_match bold_pattern (c :: t) = None.
Proof.
  intros H. unfold bold_pattern. rewrite re_match_lits.
  change (startswith (py "**") (c :: t))
    with ((chr "*" =? c)%N && startswith [chr "*"] t).
  destruct (N.eqb_spec (chr "*") c) as [E|_]; [congruence | reflexivity].
Qed.

Lemma lazy_until_exact (dot : char -> bool) (a b : char) (x post : str) :
  Forall (fun c => c <> a /\ dot c = true) x ->
  lazy_until dot a b (x ++ a :: b :: post) = Some (x, post).
Proof.
  induction 1 as [|c x [Hc Hd] _ IH].
  - simpl. now rewrite !N.eqb_refl.
  - change ((c :: x) ++ a :: b :: post) with (c :: (x ++ a :: b :: post)).
    remember (x ++ a :: b :: post) as s eqn:Es.
    destruct s as [|d rest]; [destruct x; discriminate|].
    rewrite lazy_until_step, IH, Hd.
    destruct (N.eqb_spec c a); [contradiction | reflexivity].
Qed.

Lemma bold_span_match (x post : str) :
  Forall (fun c => c <> chr "*" /\ re_dot c = true) x ->
  re_match bold_pattern (py "**" ++ x ++ py "**" ++ post) = Some ([x], post).
Proof.
  intros Hx. unfold bold_pattern. rewrite re_match_lits.
  change (startswith (py "**") (py "**" ++ x ++ py "**" ++ post)) with true.
  change (skipn (length (py "**")) (py "**" ++ x ++ py "**" ++ post))
    with (x ++ chr "*" :: chr "*" :: post).
  change (re_match ([LazyGroup re_dot] ++ lits (py "**")))
    with (lazy_run (re_match (lits [chr "*"; chr "*"])) re_dot []).
  now rewrite lazy_run_closing, (@lazy_until_exact _ _ (chr "*") _ post Hx).
Qed.

(** X19: a text that holds no [<] and no [*] is returned as it is. *)
Theorem plain_text_is_unchanged (text : str) :
  ~ In (chr "<") text -> ~ In (chr "*") text ->
  format_inline_bold text = text.
Proof.
  intros Hlt Hstar. unfold format_inline_bold.
  destruct text as [|c text]; [reflexivity|].
  remember (c :: text) as s eqn:Es. clear Es c text. cbv zeta.
  assert (H1 : re_sub br_pattern (fun _ => py "<br/>") 0 s = s).
  { rewrite <- (app_nil_r s) at 1. rewrite re_sub_no_match.
    - now rewrite app_nil_r.
    - intros c t Hc. apply br_needs_lt. intros ->. contradiction. }
  rewrite H1. rewrite <- (app_nil_r s) at 1. rewrite re_sub_no_match.
  - now rewrite app_nil_r.
  - intros c t Hc. apply bold_needs_star. intros ->. contradiction.
Qed.

Lemma plain_text_witness :
  format_inline_bold (py "Revenue grew 12% in 2024.")
  = py "Revenue grew 12% in 2024.".
Proof.
  apply plain_text_is_unchanged; vm_compute; intuition discriminate.
Defined.

(** X20: in a text without [<], a span opened and closed by [**], among
    text that holds no other [*], becomes that span between [<b>] and
    [</b>], the text around it unchanged (the span holds no line break). *)
Theorem bold_span_is_tagged (before x after : str) :
  ~ In (chr "<") (before ++ x ++ after) ->
  ~ In (chr "*") (before ++ x ++ after) ->
  ~ In 10%N x ->
  format_inline_bold (before ++ py "**" ++ x ++ py "**" ++ after)
  = before ++ py "<b>" ++ x ++ py "</b>" ++ after.
Proof.
  intros Hlt Hstar Hnl.
  assert (Hb : forall c, In c before -> c <> chr "<" /\ c <> chr "*").
  { intros c Hc. split; intros ->; [apply Hlt | apply Hstar];
      apply in_or_app; now left. }
  assert (Hx : forall c, In c x -> c <> chr "<" /\ c <> chr "*").
  { intros c Hc. split; intros ->; [apply Hlt | apply Hstar];
      apply in_or_app; right; apply in_or_app; now left. }
  assert (Ha : forall c, In c after -> c <> chr "<" /\ c <> chr "*").
  { intros c Hc. split; intros ->; [apply Hlt | apply Hstar];
      apply in_or_app; right; apply in_or_app; now right. }
  set (text := before ++ py "**" ++ x ++ py "**" ++ after).
  assert (Hne : text <> []).
  { unfold text. destruct before; discriminate. }
  unfold format_inline_bold. destruct text as [|c0 t0] eqn:Et; [congruence|].
  rewrite <- Et. clear Et Hne c0 t0. cbv zeta.
  assert (H1 : re_sub br_pattern (fun _ => py "<br/>") 0 text = text).
  { rewrite <- (app_nil_r text) at 1. rewrite re_sub_no_match.
    - now rewrite app_nil_r.
    - intros c t Hc. apply br_needs_lt. unfold text in Hc.
      repeat (apply in_app_or in Hc; destruct Hc as [Hc|Hc]);
        try (now destruct (Hb _ Hc)); try (now destruct (Hx _ Hc));
        try (now destruct (Ha _ Hc));
        vm_compute in Hc; intuition (subst; discriminate). }
  rewrite H1. unfold text.
  rewrite re_sub_no_match
    by (intros c t Hc; apply bold_needs_star; now destruct (Hb _ Hc)).
  f_equal.
  assert (Hm : re_match bold_pattern (py "**" ++ x ++ py "**" ++ after)
               = Some ([x], after)).
  { apply bold_span_match. apply Forall_forall. intros c Hc.
    split; [now destruct (Hx _ Hc)|].
    unfold re_dot. destruct (N.eqb_spec c 10) as [->|]; [contradiction|].
    reflexivity. }
  change (py "**" ++ x ++ py "**" ++ after)
    with (chr "*" :: (chr "*" :: x ++ py "**" ++ after)) at 1.
  rewrite re_sub_step.
  change (chr "*" :: (chr "*" :: x ++ py "**" ++ after))
    with (py "**" ++ x ++ py "**" ++ after).
  rewrite Hm.
  replace (chr "*" :: x ++ py "**" ++ after)
    with ((chr "*" :: x ++ py "**") ++ after)
    by (simpl; now rewrite <- app_assoc).
  replace (length (py "**" ++ x ++ py "**" ++ after) - length after - 1)
    with (length (chr "*" :: x ++ py "**"))
    by (cbn [length app py String.list_ascii_of_string List.map];
        rewrite !length_app; cbn [length]; lia).
  rewrite re_sub_skip.
  rewrite <- (app_nil_r after) at 1. rewrite re_sub_no_match
    by (intros c t Hc; apply bold_needs_star; now destruct (Ha _ Hc)).
  rewrite app_nil_r. unfold bold_repl. cbn [nth].
  now rewrite <- !app_assoc.
Qed.

Lemma bold_span_witness :
  format_inline_bold (py "Total: " ++ py "**" ++ py "42" ++ py "**"
                      ++ py " units")
  = py "Total: " ++ py "<b>" ++ py "42" ++ py "</b>" ++ py " units".
Proof.
  apply bold_span_is_tagged; vm_compute; intuition discriminate.
Defined.

(** ** The chat tool: chunks and history *)

Lemma slices_nil (fuel : nat) : App.slices fuel [] = [].
Proof. now destruct fuel. Qed.

Lemma slices_cover (fuel : nat) :
  forall text : str,
    length text <= fuel ->
    exists tail,
      text = concat (filter (fun chunk => 50 <? length chunk)
                            (App.slices fuel text)) ++ tail
      /\ length tail <= 50
      /\ Forall chunk_bounds
                (filter (fun chunk => 50 <? length chunk)
                        (App.slices fuel text)).
Proof.
  induction fuel as [|fuel IH]; intros text Hlen.
  - destruct text; [|simpl in Hlen; lia].
    exists []. repeat split; [simpl; lia | constructor].
  - destruct text as [|c t].
    + exists []. repeat split; [simpl; lia | constructor].
    + remember (c :: t) as s eqn:Es.
      assert (Hs : App.slices (S fuel) s
                   = firstn App.chunk_size s
                     :: App.slices fuel (skipn App.chunk_size s))
        by (rewrite Es; reflexivity).
      rewrite Hs. clear Hs.
      pose proof (firstn_skipn App.chunk_size s) as Hsplit.
      pose proof (length_firstn App.chunk_size s) as Hhd.
      pose proof (length_skipn App.chunk_size s) as Hrest.
      assert (Hpos : 1 <= length s) by (rewrite Es; simpl; lia).
      assert (Hchunk : App.chunk_size = 500) by reflexivity.
      cbn [filter].
      destruct (Nat.ltb_spec 50 (length (firstn App.chunk_size s)))
        as [Hbig|Hsmall].
      * destruct (IH (skipn App.chunk_size s)) as [tail [E [Ht Hf]]]; [lia|].
        exists tail. split; [|split; [exact Ht|]].
        -- cbn [concat]. rewrite <- app_assoc, <- E. now rewrite Hsplit.
        -- constructor; [|exact Hf]. unfold chunk_bounds. lia.
      * assert (Hnil : skipn App.chunk_size s = []).
        { apply length_zero_iff_nil. lia. }
        rewrite Hnil, slices_nil. exists s.
        repeat split; [lia | constructor].
Qed.

(** X21: chunking loses at most the last 50 characters of a text. The
    chunks, put end to end, are the text less a tail of at most 50
    characters; every chunk holds more than 50 and at most 500 characters;
    and in [load_pdfs] every document chunk is within these bounds, a file
    that cannot be read adding none. *)
Theorem chunks_lose_at_most_50_characters :
  (forall text : str,
      exists tail,
        text = concat (App.chunks_of text) ++ tail
        /\ length tail <= 50
        /\ Forall chunk_bounds (App.chunks_of text))
  /\ (forall files, Forall chunk_bounds (App.load_files files))
  /\ (forall files1 files2,
         App.load_files (files1 ++ None :: files2)
         = App.load_files (files1 ++ files2)).
Proof.
  split; [|split].
  - intros text. unfold App.chunks_of. now apply slices_cover.
  - intros files. unfold App.load_files.
    induction files as [|file files IH]; [constructor|].
    cbn [flat_map]. apply Forall_app. split; [|exact IH].
    destruct file as [pages|]; [|constructor].
    unfold App.chunks_of.
    destruct (@slices_cover (length (App.file_text pages))
                            (App.file_text pages) (Nat.le_refl _))
      as [tail [_ [_ H]]].
    exact H.
  - intros files1 files2. unfold App.load_files.
    now rewrite !flat_map_app.
Qed.

Lemma replace_char (a b : char) (s : str) :
  replace [a] [b] s = List.map (fun c => if (c =? a)%N then b else c) s.
Proof.
  unfold replace. induction s as [|c s IH]; [reflexivity|].
  cbn [replace_from startswith length Nat.sub List.map].
  rewrite (N.eqb_sym a c). rewrite andb_true_r.
  destruct (c =? a)%N; cbn [app]; now rewrite IH.
Qed.

Lemma clean_content_map (c : str) :
  App.clean_content c
  = List.map (fun ch => if (ch =? 10)%N then 32%N
                        else if (ch =? 44)%N then 65292%N else ch) c.
Proof.
  unfold App.clean_content.
  change (py ",") with [44%N]. change (py " ") with [32%N].
  rewrite !replace_char, map_map. apply map_ext. intros ch.
  destruct (N.eqb_spec ch 10) as [->|H10]; reflexivity.
Qed.

Lemma clean_content_no_newline (c : str) : ~ In 10%N (App.clean_content c).
Proof.
  rewrite clean_content_map. intros H. apply in_map_iff in H.
  destruct H as [ch [E _]].
  destruct (N.eqb_spec ch 10); [discriminate|].
  destruct (N.eqb_spec ch 44); [discriminate | congruence].
Qed.

(** X22: the cleaned content of a message has the length of the content
    and holds no line break and no ASCII comma; a content without either
    is unchanged. *)
Theorem clean_content_has_no_break_or_comma :
  forall c : str,
    length (App.clean_content c) = length c
    /\ ~ In 10%N (App.clean_content c)
    /\ ~ In (chr ",") (App.clean_content c)
    /\ (~ In 10%N c -> ~ In (chr ",") c -> App.clean_content c = c).
Proof.
  intros c. split; [rewrite clean_content_map; apply length_map|].
  split; [apply clean_content_no_newline|]. rewrite clean_content_map. split.
  - intros H. apply in_map_iff in H. destruct H as [ch [E _]].
    change (chr ",") with 44%N in E.
    destruct (N.eqb_spec ch 10); [discriminate|].
    destruct (N.eqb_spec ch 44); [discriminate | congruence].
  - intros H10 H44. rewrite <- (map_id c) at 2. apply map_ext_in.
    intros ch Hin.
    destruct (N.eqb_spec ch 10) as [->|_]; [contradiction|].
    destruct (N.eqb_spec ch 44) as [->|_]; [contradiction | reflexivity].
Qed.

Lemma of_nat_digits (n : nat) :
  Forall (fun c => (48 <= c <= 57)%N) (of_nat n).
Proof.
  unfold of_nat. generalize (Nat.to_uint n).
  induction u; cbn; constructor; try exact IHu; lia.
Qed.

Lemma fold_left_lines (history : list App.message) :
  forall acc : str,
    fold_left (fun toon_str msg =>
                 toon_str ++ App.role msg ++ py ", "
                 ++ App.clean_content (App.content msg) ++ [10%N])
              history acc
    = acc ++ concat (List.map history_line history).
Proof.
  induction history as [|msg history IH]; intros acc; cbn [fold_left].
  - now rewrite app_nil_r.
  - rewrite IH. cbn [List.map concat]. now rewrite <- app_assoc.
Qed.

Lemma newlines_app (a b : str) : newlines (a ++ b) = newlines a + newlines b.
Proof. apply count_occ_app. Qed.

Lemma newlines_none (s : str) : ~ In 10%N s -> newlines s = 0.
Proof. apply count_occ_not_In. Qed.

Lemma count_newline_lines (history : list App.message) :
  Forall (fun msg => ~ In 10%N (App.role msg)) history ->
  newlines (concat (List.map history_line history)) = length history.
Proof.
  induction 1 as [|msg history Hr _ IH]; [reflexivity|].
  cbn [List.map concat length]. rewrite newlines_app, IH.
  unfold history_line. rewrite !newlines_app.
  rewrite (@newlines_none _ Hr),
          (@newlines_none _ (clean_content_no_newline (App.content msg))).
  reflexivity.
Qed.

(** X23: the formatted history of a history that is not empty is a line
    break, the header [history[N]{role, content}:] with the number of
    messages, and one line per message, in order, made of the role, a
    comma and the cleaned content; when no role holds a line break it has
    exactly two line breaks more than there are messages, so that every
    message is on one line. The history that is empty gives the empty
    text. *)
Theorem history_has_one_line_per_message (history : list App.message) :
  history <> [] ->
  Forall (fun msg => ~ In 10%N (App.role msg)) history ->
  App.format_history_toon history
  = [10%N] ++ py "history[" ++ of_nat (length history)
    ++ py "]{role, content}:" ++ [10%N]
    ++ concat (List.map history_line history)
  /\ newlines (App.format_history_toon history) = length history + 2
  /\ App.format_history_toon [] = [].
Proof.
  intros Hne Hroles.
  assert (E : App.format_history_toon history
              = [10%N] ++ py "history[" ++ of_nat (length history)
                ++ py "]{role, content}:" ++ [10%N]
                ++ concat (List.map history_line history)).
  { unfold App.format_history_toon.
    destruct history as [|msg history]; [congruence|].
    cbv zeta. rewrite fold_left_lines. now rewrite <- !app_assoc. }
  split; [exact E|]. split; [|reflexivity].
  rewrite E, !newlines_app, (count_newline_lines Hroles).
  assert (Hd : newlines (of_nat (length history)) = 0).
  { apply newlines_none. intros Hin.
    pose proof (of_nat_digits (length history)) as Hf.
    rewrite Forall_forall in Hf. specialize (Hf _ Hin). lia. }
  rewrite Hd.
  change (newlines [10%N]) with 1.
  change (newlines (py "history[")) with 0.
  change (newlines (py "]{role, content}:")) with 0.
  lia.
Qed.

Lemma history_witness :
  let history := [{| App.role := py "user"; App.content := py "a, b" |};
                  {| App.role := py "model"; App.content := py "ok" |}] in
  newlines (App.format_history_toon history) = 2 + 2.
Proof.
  cbv zeta.
  refine (proj1 (proj2 (@history_has_one_line_per_message
                          [{| App.role := py "user"; App.content := py "a, b" |};
                           {| App.role := py "model"; App.content := py "ok" |}]
                          _ _))).
  - discriminate.
  - repeat constructor; vm_compute; intuition discriminate.
Defined.
